(** * network-dashboard: the reachability engine of [script.js]

    A shallow embedding of the probe ([checkTarget]), the worker pool
    ([runChecks]), the summary loop of [render] and the periodic timer, with
    the properties of the written specification stated over them.

    Conventions.
    - Times read from [performance.now()] are finite doubles; they are
      modelled as rationals ([Q]), so every comparison against the 1200 ms
      threshold is exact. The rounding of the double subtraction
      [performance.now() - t0] is not modelled.
    - The browser (fetch, AbortController, timers, the clock) is not part of
      the repository. It is modelled by the [Platform] state and the
      [World] oracle below, following the Fetch and DOM standards. *)

From Stdlib Require Import QArith Qround.
From stdpp Require Import gmap strings list fin_maps pretty.

Set Warnings "-clear-no-such-hyp".

(** ** Rationals as clock readings *)

(** [a > b] on numbers, as a boolean. *)
Definition Qgtb (a b : Q) : bool := negb (Qle_bool a b).

(** ** JavaScript values and completions *)

(** The values a rejected promise can carry: [undefined], [null], or an
    error object with a [name] (a [TypeError], or the [DOMException] named
    "AbortError" that an aborted signal rejects with). *)
Inductive JsValue : Type :=
  | VUndefined
  | VNull
  | VError (name : string).

#[global] Instance JsValue_eq_dec : EqDecision JsValue.
Proof. solve_decision. Defined.

(** [Boolean(v)]: the truthiness tested by [v && ...]. *)
Definition truthy (v : JsValue) : bool :=
  match v with
  | VError _ => true
  | VUndefined | VNull => false
  end.

Definition AbortError : JsValue := VError "AbortError".
Definition TypeError : JsValue := VError "TypeError".

(** How a statement completes: normally with a value, or by throwing. An
    [await] of a rejected promise throws the rejection value. *)
Inductive Completion (A : Type) : Type :=
  | Normal (a : A)
  | Throw (e : JsValue).
Arguments Normal {A} a.
Arguments Throw {A} e.

(** ** The platform: responses, signals, the clock *)

Inductive ResponseType : Type := Basic | Cors | Opaque | OpaqueRedirect | ErrorResponse.

#[global] Instance ResponseType_eq_dec : EqDecision ResponseType.
Proof. solve_decision. Defined.

(** The fields of a [Response] that [checkTarget] reads. *)
Record Response : Type := mkResponse {
  res_ok : bool;
  res_status : N;
  res_type : ResponseType
}.

Inductive FetchMode : Type := ModeDefault | ModeNoCors.

(** One call of [fetch], as the platform saw it. *)
Record FetchCall : Type := mkFetchCall {
  call_url : string;
  call_mode : FetchMode;
  call_signal_aborted : bool   (* the signal was already aborted at the call *)
}.

(** What the network does with a request that is really sent. [NetDeadline]
    is the timer armed by [setTimeout] firing while the request is pending:
    the controller aborts and the fetch rejects with an AbortError. *)
Inductive NetOutcome : Type :=
  | NetResolve (r : Response)
  | NetReject (e : JsValue)
  | NetDeadline.

(** The oracle for one probe: the clock at its start, and what happens to
    its first and second request, each with the time it takes to settle. *)
Record World : Type := mkWorld {
  start : Q;
  phase1 : NetOutcome;
  d1 : Q;
  phase2 : NetOutcome;
  d2 : Q
}.

Definition net_at (w : World) (n : nat) : NetOutcome * Q :=
  match n with
  | O => (phase1 w, d1 w)
  | S _ => (phase2 w, d2 w)
  end.

(** The state of the platform during one probe. *)
Record Platform : Type := mkPlatform {
  aborted : bool;             (* controller.signal.aborted *)
  timer_armed : bool;         (* the timeout is pending *)
  now : Q;                    (* performance.now() *)
  fetches : list FetchCall;   (* calls of fetch so far, oldest first *)
  requests : nat              (* requests really sent to the network *)
}.

Definition boot (w : World) : Platform :=
  mkPlatform false false (start w) [] 0.

(** ** The monad of effectful code: platform state and exceptions *)

Definition M (A : Type) : Type := Platform -> Completion A * Platform.

#[global] Instance M_ret : MRet M := fun A (a : A) p => (Normal a, p).

Definition throw {A} (e : JsValue) : M A := fun p => (Throw e, p).

#[global] Instance M_bind : MBind M := fun A B (k : A -> M B) (m : M A) p =>
  match m p with
  | (Normal a, p') => k a p'
  | (Throw e, p') => (Throw e, p')
  end.

(** [try { body } catch (err) { handler }] *)
Definition try_catch {A} (body : M A) (handler : JsValue -> M A) : M A :=
  fun p =>
    match body p with
    | (Normal a, p') => (Normal a, p')
    | (Throw e, p') => handler e p'
    end.

(** The platform calls that [checkTarget] makes outside its [try] blocks
    ([new AbortController], [setTimeout], [performance.now]) and
    [clearTimeout] do not throw. *)

(** [new AbortController()] *)
Definition new_AbortController : M unit :=
  fun p => (Normal tt, mkPlatform false (timer_armed p) (now p) (fetches p) (requests p)).

(** [setTimeout(() => controller.abort(), TIMEOUT_MS)] *)
Definition setTimeout_abort : M unit :=
  fun p => (Normal tt, mkPlatform (aborted p) true (now p) (fetches p) (requests p)).

(** [clearTimeout(timeout)] *)
Definition clearTimeout : M unit :=
  fun p => (Normal tt, mkPlatform (aborted p) false (now p) (fetches p) (requests p)).

(** [performance.now()] *)
Definition performance_now : M Q := fun p => (Normal (now p), p).

(** [await fetch(url, { method: "GET", cache: "no-store", mode, signal })].
    Fetch standard: a call on an already aborted signal rejects with the
    signal's abort reason and sends nothing. Otherwise the request is sent
    and the world decides. The deadline can fire only while the timer is
    armed (it always is when [checkTarget] fetches); for an unarmed timer
    the outcome is read as a network error. *)
Definition fetch (w : World) (url : string) (mode : FetchMode) : M Response :=
  fun p =>
    let n := length (fetches p) in
    let log := fetches p ++ [mkFetchCall url mode (aborted p)] in
    if aborted p then
      (Throw AbortError, mkPlatform true (timer_armed p) (now p) log (requests p))
    else
      let '(o, d) := net_at w n in
      let t := (now p + d)%Q in
      match o with
      | NetResolve r =>
          (Normal r, mkPlatform false (timer_armed p) t log (S (requests p)))
      | NetReject e =>
          (Throw e, mkPlatform false (timer_armed p) t log (S (requests p)))
      | NetDeadline =>
          if timer_armed p then
            (Throw AbortError, mkPlatform true false t log (S (requests p)))
          else
            (Throw TypeError, mkPlatform false false t log (S (requests p)))
      end.

(** [v.name]: reading a property of [undefined] or [null] throws. *)
Definition get_name (v : JsValue) : M string :=
  match v with
  | VError n => mret n
  | VUndefined | VNull => throw TypeError
  end.

(** ** The probe: [checkTarget] *)

Inductive Status : Type := CHECKING | UP | UP_OPAQUE | SLOW | DOWN.

#[global] Instance Status_eq_dec : EqDecision Status.
Proof. solve_decision. Defined.

Record ProbeResult : Type := mkProbeResult {
  status : Status;
  latencyMs : option Q;
  note : string
}.

(** [`HTTP ${res.status}`] *)
Definition http_note (code : N) : string := "HTTP " +:+ pretty code.

(** [err2 && err2.name === "AbortError"] *)
Definition is_abort (err2 : JsValue) : M bool :=
  if truthy err2 then
    n ← get_name err2 ;
    mret (bool_decide (n = "AbortError"))
  else mret false.

Definition checkTarget (w : World) (url : string) : M ProbeResult :=
  new_AbortController ;;
  setTimeout_abort ;;
  t0 ← performance_now ;
  try_catch
    (res ← fetch w url ModeDefault ;
     t1 ← performance_now ;
     let ms := (t1 - t0)%Q in
     clearTimeout ;;
     if res_ok res then
       mret (mkProbeResult (if Qgtb ms 1200 then SLOW else UP) (Some ms)
              (http_note (res_status res)))
     else
       mret (mkProbeResult DOWN (Some ms) (http_note (res_status res))))
    (fun err =>
       try_catch
         (res2 ← fetch w url ModeNoCors ;
          t2 ← performance_now ;
          let ms2 := (t2 - t0)%Q in
          clearTimeout ;;
          (* res2 && res2.type === "opaque": a Response is truthy *)
          if bool_decide (res_type res2 = Opaque) then
            mret (mkProbeResult (if Qgtb ms2 1200 then SLOW else UP_OPAQUE)
                   (Some ms2) "CORS blocked details")
          else
            mret (mkProbeResult (if Qgtb ms2 1200 then SLOW else UP)
                   (Some ms2) "OK"))
         (fun err2 =>
            clearTimeout ;;
            abort ← is_abort err2 ;
            let note : string := if (abort : bool) then "timeout" else "unreachable" in
            mret (mkProbeResult DOWN None note))).

(** One whole probe, from a fresh platform. *)
Definition probe (w : World) (url : string) : Completion ProbeResult * Platform :=
  checkTarget w url (boot w).

(** Time from [t0] to the clock reading after the first request, and after
    the second: the readings are [start + d1] and [start + d1 + d2]. *)
Definition elapsed1 (w : World) : Q := (start w + d1 w - start w)%Q.
Definition elapsed2 (w : World) : Q := (start w + d1 w + d2 w - start w)%Q.

(** [ms > 1200 ? "SLOW" : fast] *)
Definition slow_or (fast : Status) (ms : Q) : Status :=
  if Qgtb ms 1200 then SLOW else fast.


(** ** How a probe ended, read off the world *)

(** The first request resolved with [res.ok] false. *)
Definition readable_failure (w : World) : Prop :=
  match phase1 w with
  | NetResolve r => res_ok r = false
  | _ => False
  end.

(** Readable ok status, or a second request that resolved. *)
Definition successful (w : World) : Prop :=
  match phase1 w with
  | NetResolve r => res_ok r = true
  | NetReject _ => match phase2 w with NetResolve _ => True | _ => False end
  | NetDeadline => False
  end.

(** Some request resolved, so the code went on to classify the response. *)
Definition fetch_resolved (w : World) : Prop :=
  match phase1 w with
  | NetResolve _ => True
  | NetReject _ => match phase2 w with NetResolve _ => True | _ => False end
  | NetDeadline => False
  end.

(** The deadline fired, during the first or during the second request. *)
Definition deadline_fired (w : World) : Prop :=
  match phase1 w with
  | NetResolve _ => False
  | NetReject _ => phase2 w = NetDeadline
  | NetDeadline => True
  end.

(** Time spent from [t0] to the response that was classified: the first
    request alone, or both requests together. *)
Definition total_time (w : World) : Q :=
  match phase1 w with
  | NetResolve _ => d1 w
  | _ => (d1 w + d2 w)%Q
  end.

(** The ways [checkTarget] returns, one constructor per [return]. *)
Inductive outcome (w : World) : ProbeResult -> Prop :=
  | outcome_ok (r : Response) :
      phase1 w = NetResolve r -> res_ok r = true ->
      outcome w (mkProbeResult (slow_or UP (elapsed1 w)) (Some (elapsed1 w))
                   (http_note (res_status r)))
  | outcome_http_failure (r : Response) :
      phase1 w = NetResolve r -> res_ok r = false ->
      outcome w (mkProbeResult DOWN (Some (elapsed1 w)) (http_note (res_status r)))
  | outcome_opaque (e : JsValue) (r2 : Response) :
      phase1 w = NetReject e -> phase2 w = NetResolve r2 -> res_type r2 = Opaque ->
      outcome w (mkProbeResult (slow_or UP_OPAQUE (elapsed2 w)) (Some (elapsed2 w))
                   "CORS blocked details")
  | outcome_inspectable (e : JsValue) (r2 : Response) :
      phase1 w = NetReject e -> phase2 w = NetResolve r2 -> res_type r2 <> Opaque ->
      outcome w (mkProbeResult (slow_or UP (elapsed2 w)) (Some (elapsed2 w)) "OK")
  | outcome_deadline1 :
      phase1 w = NetDeadline ->
      outcome w (mkProbeResult DOWN None "timeout")
  | outcome_deadline2 (e : JsValue) :
      phase1 w = NetReject e -> phase2 w = NetDeadline ->
      outcome w (mkProbeResult DOWN None "timeout")
  | outcome_abort_error (e : JsValue) :
      phase1 w = NetReject e -> phase2 w = NetReject AbortError ->
      outcome w (mkProbeResult DOWN None "timeout")
  | outcome_unreachable (e e2 : JsValue) :
      phase1 w = NetReject e -> phase2 w = NetReject e2 -> e2 <> AbortError ->
      outcome w (mkProbeResult DOWN None "unreachable").

(** Worlds used as examples. *)
Definition resp (ok : bool) (code : N) (ty : ResponseType) : Response :=
  mkResponse ok code ty.

(** Scenario B: the target answers 500 after 50 ms. *)
Definition world_500 : World :=
  mkWorld 0 (NetResolve (resp false 500 Cors)) 50 (NetReject TypeError) 0.

(** Scenario C, slowly: blocked after 1000 ms, the retry resolves opaque
    500 ms later. *)
Definition world_cors_slow : World :=
  mkWorld 7 (NetReject TypeError) 1000 (NetResolve (resp false 0 Opaque)) 500.

(** Scenario D: nothing answers before the deadline. *)
Definition world_timeout : World :=
  mkWorld 0 NetDeadline 8000 (NetResolve (resp true 200 Basic)) 10.

(** A same-origin target: the first request fails, the no-cors retry
    resolves with a readable 500. *)
Definition world_retry_500 : World :=
  mkWorld 0 (NetReject TypeError) 20 (NetResolve (resp false 500 Basic)) 30.

(** The second request resolved, but with a response that cannot be read. *)
Definition visibility_restricted (w : World) : Prop :=
  match phase1 w, phase2 w with
  | NetReject _, NetResolve r2 => res_type r2 = Opaque
  | _, _ => False
  end.

(** Both requests were rejected, the second one not by an abort. *)
Definition unreachable (w : World) : Prop :=
  match phase1 w, phase2 w with
  | NetReject _, NetReject e2 => e2 <> AbortError
  | _, _ => False
  end.

(** When a result or a stored entry has a latency: the rule of the
    specification, on the three fields it relates. *)
Definition latency_rule (s : Status) (l : option Q) (n : string) : Prop :=
  (is_Some l <->
     (s = UP \/ s = UP_OPAQUE \/ s = SLOW) \/ (s = DOWN /\ exists code : N, n = http_note code))
  /\
  (l = None <->
     s = CHECKING \/ (s = DOWN /\ (n = "timeout" \/ n = "unreachable"))).

(** ** Targets and the result map *)

Module Target.
Record t : Type := mk { name : string; kind : string; url : string }.
End Target.

(** The values of [state]: [{ status, latencyMs, lastChecked, note }]. *)
Module Entry.
Record t : Type := mk {
  status : Status;
  latencyMs : option Q;
  lastChecked : Z;          (* Date.now() *)
  note : string
}.
End Entry.

(** [s || d] on strings: the empty string is falsy. *)
Definition or_else (s d : string) : string :=
  if decide (s = "") then d else s.

(** [{ status: "CHECKING", latencyMs: null, lastChecked: Date.now(), note: "" }] *)
Definition checking_entry (now : Z) : Entry.t := Entry.mk CHECKING None now "".

(** The entry a worker stores for a finished probe. *)
Definition entry_of (result : ProbeResult) (now : Z) : Entry.t :=
  Entry.mk (status result) (latencyMs result) now (or_else (note result) "").

(** [for (const t of TARGETS) state.set(t.url, { status: "CHECKING", ... })];
    [clock n] is the reading of [Date.now()] in iteration [n]. *)
Fixpoint set_all_checking (clock : nat -> Z) (n : nat) (targets : list Target.t)
    (state : gmap string Entry.t) : gmap string Entry.t :=
  match targets with
  | [] => state
  | t :: rest =>
      set_all_checking clock (S n) rest
        (<[Target.url t := checking_entry (clock n)]> state)
  end.

(** ** The worker pool of [runChecks] *)

(** A worker is an async function: it is suspended at
    [await checkTarget(target.url)] holding [idx] and [target], or its
    promise has settled (fulfilled after the loop, or rejected by a throw). *)
Inductive Worker : Type :=
  | Awaiting (idx : nat) (target : Target.t)
  | Finished
  | Crashed (e : JsValue).

(** What happened, in order: worker [k] took [idx] at [const idx = i++] and
    started its probe; worker [k] resumed with the result for [idx]. *)
Inductive Event : Type :=
  | Claim (k idx : nat)
  | Complete (k idx : nat) (result : ProbeResult).

Module Pool.
Record t : Type := mk {
  i : nat;                          (* the shared cursor *)
  workers : list Worker;            (* one per async function started *)
  state : gmap string Entry.t;      (* url -> entry *)
  renders : nat;                    (* calls of render() *)
  trace : list Event
}.
End Pool.

(** A worker at the head of [while (i < TARGETS.length)]: it takes the next
    index and suspends in its probe, or leaves the loop. [TARGETS[idx]] out
    of range is [undefined], whose [.url] throws. *)
Definition loop_head (targets : list Target.t) (k : nat) (p : Pool.t) : Worker * Pool.t :=
  if decide (Pool.i p < length targets) then
    let idx := Pool.i p in
    let p' := Pool.mk (S idx) (Pool.workers p) (Pool.state p) (Pool.renders p)
                (Pool.trace p ++ [Claim k idx]) in
    match targets !! idx with
    | Some target => (Awaiting idx target, p')
    | None => (Crashed TypeError, p')
    end
  else (Finished, p).

(** [Array.from] calls the next async function, which runs up to its first
    [await]. *)
Definition spawn (targets : list Target.t) (p : Pool.t) : Pool.t :=
  let '(wk, p') := loop_head targets (length (Pool.workers p)) p in
  Pool.mk (Pool.i p') (Pool.workers p' ++ [wk]) (Pool.state p') (Pool.renders p')
    (Pool.trace p').

(** [runChecks] up to [await Promise.all(workers)]: every target is set to
    CHECKING, [render()], then [concurrency] workers are started. *)
Definition runChecks_start (targets : list Target.t) (concurrency : nat)
    (clock : nat -> Z) (state0 : gmap string Entry.t) : Pool.t :=
  Nat.iter concurrency (spawn targets)
    (Pool.mk 0 [] (set_all_checking clock 0 targets state0) 1 []).

(** The probe awaited by worker [k] settles (in world [w], at wall-clock
    time [now]): the worker stores the result, renders, and goes back to the
    head of its loop. [None]: worker [k] is not suspended. A probe touches
    nothing of the pool while it runs (its controller, timer and clock
    readings are its own), so its two requests are run here in one go. *)
Definition resume (targets : list Target.t) (k : nat) (w : World) (now : Z)
    (p : Pool.t) : option Pool.t :=
  match Pool.workers p !! k with
  | Some (Awaiting idx target) =>
      match (probe w (Target.url target)).1 with
      | Normal result =>
          let p1 := Pool.mk (Pool.i p) (Pool.workers p)
                      (<[Target.url target := entry_of result now]> (Pool.state p))
                      (S (Pool.renders p))
                      (Pool.trace p ++ [Complete k idx result]) in
          let '(wk, p2) := loop_head targets k p1 in
          Some (Pool.mk (Pool.i p2) (<[k := wk]> (Pool.workers p2)) (Pool.state p2)
                  (Pool.renders p2) (Pool.trace p2))
      | Throw e =>
          Some (Pool.mk (Pool.i p) (<[k := Crashed e]> (Pool.workers p))
                  (Pool.state p) (Pool.renders p) (Pool.trace p))
      end
  | _ => None
  end.

(** One step of the event loop during a cycle: some suspended worker
    resumes. Which one, and with what, is up to the network. *)
Definition step (targets : list Target.t) (p p' : Pool.t) : Prop :=
  exists (k : nat) (w : World) (now : Z), resume targets k w now p = Some p'.

(** A cycle that has run for a while, a completed probe per schedule item. *)
Fixpoint run (targets : list Target.t) (schedule : list (nat * World * Z))
    (p : Pool.t) : option Pool.t :=
  match schedule with
  | [] => Some p
  | (k, w, now) :: rest =>
      match resume targets k w now p with
      | Some p' => run targets rest p'
      | None => None
      end
  end.

Definition is_finished (wk : Worker) : bool :=
  match wk with Finished => true | _ => false end.

Definition is_awaiting (wk : Worker) : bool :=
  match wk with Awaiting _ _ => true | _ => false end.

(** [await Promise.all(workers)] resolves: every worker left its loop. *)
Definition resolved (p : Pool.t) : bool := forallb is_finished (Pool.workers p).

(** Probes in flight: workers suspended in [await checkTarget(...)]. *)
Definition in_flight (p : Pool.t) : nat := length (filter is_awaiting (Pool.workers p)).

(** What a worker adds to the probes in flight. *)
Definition awaiting_bit (wk : Worker) : nat := if is_awaiting wk then 1 else 0.

(** The indices taken at [const idx = i++], in order. *)
Definition claims (tr : list Event) : list nat :=
  omap (fun ev => match ev with Claim _ idx => Some idx | Complete _ _ _ => None end) tr.

(** The indices taken by worker [k]. *)
Definition claims_of (k : nat) (tr : list Event) : list nat :=
  omap (fun ev => match ev with
                  | Claim k' idx => if decide (k' = k) then Some idx else None
                  | Complete _ _ _ => None
                  end) tr.

Definition is_complete (ev : Event) : bool :=
  match ev with Complete _ _ _ => true | Claim _ _ => false end.

(** Probes that have settled. *)
Definition completions (tr : list Event) : nat := length (filter is_complete tr).

(** Replaying a trace: what each worker is probing. A worker may claim only
    while idle and complete only the index it is probing. *)
Definition replay_event (busy : option (gmap nat nat)) (ev : Event) : option (gmap nat nat) :=
  b ← busy ;
  match ev with
  | Claim k idx =>
      match b !! k with
      | None => Some (<[k := idx]> b)
      | Some _ => None
      end
  | Complete k idx _ =>
      match b !! k with
      | Some idx' => if decide (idx' = idx) then Some (delete k b) else None
      | None => None
      end
  end.

Definition replay (tr : list Event) : option (gmap nat nat) :=
  foldl replay_event (Some ∅) tr.

(** ** The summary of [render] *)

(** [let up = 0, down = 0, checking = 0; for (const t of TARGETS) { ... }] *)
Definition count_target (state : gmap string Entry.t) (acc : nat * nat * nat)
    (t : Target.t) : nat * nat * nat :=
  let '(up, down, checking) := acc in
  match state !! Target.url t with
  | None => (up, down, S checking)
  | Some s =>
      match Entry.status s with
      | UP | UP_OPAQUE => (S up, down, checking)
      | DOWN => (up, S down, checking)
      | _ => (up, down, S checking)
      end
  end.

Definition summary (targets : list Target.t) (state : gmap string Entry.t) : nat * nat * nat :=
  foldl (count_target state) (0, 0, 0) targets.

(** [`${up} up • ${down} down • ${checking} checking`] *)
Definition summaryText (targets : list Target.t) (state : gmap string Entry.t) : string :=
  let '(up, down, checking) := summary targets state in
  pretty up +:+ " up • " +:+ pretty down +:+ " down • " +:+ pretty checking +:+ " checking".

(** ** The timer *)

Definition REFRESH_EVERY_MS : Z := 120000.
Definition TIMEOUT_MS : Z := 8000.
Definition CONCURRENCY : nat := 6.

(** The page's top level, after the definitions:
    [render(); runChecks(); setInterval(() => { runChecks(); }, delay)]
    with [delay = REFRESH_EVERY_MS + Math.floor(Math.random() * 1500)].
    [rand n] is the [n]-th value returned by [Math.random()]. *)
Module Sched.
Record t : Type := mk {
  samples : nat;            (* calls of Math.random() so far *)
  interval : option Z;      (* the delay registered with setInterval *)
  cycles : nat;             (* calls of runChecks() so far *)
  delays : list Z           (* the wait before each periodic firing, oldest first *)
}.
End Sched.

(** [Math.floor(Math.random() * 1500)] *)
Definition jitter (r : Q) : Z := Qfloor (r * 1500).

Definition main (rand : nat -> Q) : Sched.t :=
  (* runChecks() *)
  let cycles := 1 in
  (* the argument of setInterval is evaluated, once, at the call *)
  let delay := (REFRESH_EVERY_MS + jitter (rand 0%nat))%Z in
  Sched.mk 1 (Some delay) cycles [].

(** The interval timer fires: the callback runs [runChecks()]. The timer
    repeats with the delay it was registered with. *)
Definition fire (s : Sched.t) : Sched.t :=
  match Sched.interval s with
  | Some delay =>
      Sched.mk (Sched.samples s) (Some delay) (S (Sched.cycles s))
        (Sched.delays s ++ [delay])
  | None => s
  end.

(** The page after [n] periodic firings. *)
Definition after_firings (rand : nat -> Q) (n : nat) : Sched.t :=
  Nat.iter n fire (main rand).

(** ** States of a cycle *)

(** The pools a cycle can be in: the one [runChecks] suspends in, and those
    reached from it as probes settle. The cycle is taken in isolation: only
    its own workers write the state map. On the page a click or a firing of
    the timer can start another cycle that writes the same map meanwhile. *)
Definition reachable (targets : list Target.t) (concurrency : nat) (clock : nat -> Z)
    (state0 : gmap string Entry.t) (p : Pool.t) : Prop :=
  rtc (step targets) (runChecks_start targets concurrency clock state0) p.

(** Target [idx] is still to be probed, or its probe is in flight. *)
Definition pending (p : Pool.t) (idx : nat) (t : Target.t) : Prop :=
  Pool.i p <= idx \/ exists k : nat, Pool.workers p !! k = Some (Awaiting idx t).

(** The target has a stored entry that is not CHECKING. *)
Definition settled (p : Pool.t) (t : Target.t) : Prop :=
  exists e : Entry.t, Pool.state p !! Target.url t = Some e /\ Entry.status e <> CHECKING.

Definition entry_ok (e : Entry.t) : Prop :=
  latency_rule (Entry.status e) (Entry.latencyMs e) (Entry.note e).

(** What the replayed trace says worker [k] is probing, against the pool. *)
Definition probing (wk : option Worker) : option nat :=
  match wk with
  | Some (Awaiting idx _) => Some idx
  | _ => None
  end.

(** The facts that hold of a pool with [n] workers throughout a cycle. *)
Record pool_inv (targets : list Target.t) (n : nat) (p : Pool.t) : Prop := mk_pool_inv {
  inv_workers : length (Pool.workers p) = n;
  inv_cursor : Pool.i p <= length targets;
  inv_awaiting : forall k idx t,
    Pool.workers p !! k = Some (Awaiting idx t) ->
    idx < Pool.i p /\ targets !! idx = Some t;
  inv_no_crash : forall k e, Pool.workers p !! k <> Some (Crashed e);
  inv_finished : forall k,
    Pool.workers p !! k = Some Finished -> Pool.i p = length targets;
  inv_claims : claims (Pool.trace p) = seq 0 (Pool.i p);
  inv_replay : exists busy : gmap nat nat,
    replay (Pool.trace p) = Some busy /\
    forall k, busy !! k = probing (Pool.workers p !! k);
  inv_count : completions (Pool.trace p) + in_flight p = Pool.i p;
  inv_renders : Pool.renders p = S (completions (Pool.trace p));
  inv_settled : forall idx t,
    targets !! idx = Some t -> pending p idx t \/ settled p t;
  inv_entries : forall t,
    t ∈ targets -> exists e, Pool.state p !! Target.url t = Some e /\ entry_ok e
}.

(** Example targets and schedules. *)
Definition five_targets : list Target.t :=
  [Target.mk "a" "WEBSITE" "https://a/"; Target.mk "b" "WEBSITE" "https://b/";
   Target.mk "c" "SERVER" "http://c:8006"; Target.mk "d" "SERVER" "http://d:8006";
   Target.mk "e" "SERVER" "http://e:8006"].

Definition world_200 : World :=
  mkWorld 0 (NetResolve (resp true 200 Cors)) 300 (NetReject TypeError) 0.

(** Scenario E: five targets, two workers; the probes of targets b, a, c, e,
    d settle in that order. *)
Definition noon : nat -> Z := fun n => (1700000000000 + Z.of_nat n)%Z.

Definition start5 : Pool.t := runChecks_start five_targets 2 noon ∅.

Definition schedule5 : list (nat * World * Z) :=
  [(1, world_200, 1700000000310%Z); (0, world_500, 1700000000320%Z);
   (1, world_cors_slow, 1700000001900%Z); (1, world_timeout, 1700000009900%Z);
   (0, world_retry_500, 1700000009950%Z)].

Definition after5 : Pool.t := default start5 (run five_targets schedule5 start5).

(** The status stored for a target, if any. *)
Definition stored_status (state : gmap string Entry.t) (t : Target.t) : option Status :=
  Entry.status <$> state !! Target.url t.

(** How many targets have their stored status among [ss]. *)
Definition count_status (ss : list (option Status)) (targets : list Target.t)
    (state : gmap string Entry.t) : nat :=
  length (filter (fun t => stored_status state t ∈ ss) targets).

(** A stream of [Math.random()] values: 0.5 first, then 0. *)
Definition rand_half_then_zero (n : nat) : Q :=
  match n with
  | O => (1 # 2)%Q
  | S _ => 0%Q
  end.

(** * The rest of the page: formatting, rows, the refresh button *)

(** Strings are byte strings in UTF-8. The five characters that
    [escapeHtml] looks for are ASCII, and no byte of a longer UTF-8 sequence
    is ASCII, so working byte by byte finds the same occurrences as working
    on UTF-16 code units does. *)

From Stdlib Require Import Ascii.

Definition dq_char : Ascii.ascii := "034"%char.
Definition dq : string := String dq_char EmptyString.
Definition nl : string := String "010"%char EmptyString.
Definition dash : string := "—".

(** ** [escapeHtml] *)

(** [s.replaceAll(pat, rep)] for a pattern of one character: every
    occurrence, left to right; the replacement text is not searched again. *)
Fixpoint replaceAll (pat : Ascii.ascii) (rep : string) (s : string) : string :=
  match s with
  | EmptyString => EmptyString
  | String c rest =>
      if Ascii.eqb c pat then rep +:+ replaceAll pat rep rest
      else String c (replaceAll pat rep rest)
  end.

(** [String(s)] is [s] itself: every caller passes a string. *)
Definition escapeHtml (s : string) : string :=
  replaceAll "'" "&#039;"
    (replaceAll dq_char "&quot;"
       (replaceAll ">" "&gt;"
          (replaceAll "<" "&lt;"
             (replaceAll "&" "&amp;" s)))).

(** What becomes of one character. *)
Definition escape_char (c : Ascii.ascii) : string :=
  if Ascii.eqb c "&" then "&amp;"
  else if Ascii.eqb c "<" then "&lt;"
  else if Ascii.eqb c ">" then "&gt;"
  else if Ascii.eqb c dq_char then "&quot;"
  else if Ascii.eqb c "'" then "&#039;"
  else String c EmptyString.

Fixpoint escape_each (s : string) : string :=
  match s with
  | EmptyString => EmptyString
  | String c rest => escape_char c +:+ escape_each rest
  end.

(** Occurrences of a character in a string. *)
Fixpoint count_char (c : Ascii.ascii) (s : string) : nat :=
  match s with
  | EmptyString => 0
  | String c' rest => (if Ascii.eqb c' c then 1 else 0) + count_char c rest
  end.

(** ** [fmtTime], [fmtLatency] *)

(** [Math.round]: the nearest integer, halves upwards. *)
Definition Math_round (x : Q) : Z := Qfloor (x + (1 # 2)).

(** [fmtLatency(ms)]; the number is printed in decimal, as JavaScript does
    for integers below 10^21. *)
Definition fmtLatency (ms : option Q) : string :=
  match ms with
  | None => dash
  | Some x => pretty (Math_round x) +:+ "ms"
  end.

(** [fmtTime(d)]: [d] is [null] or a number of milliseconds; [!d] holds of
    [null] and of 0. [toLocaleString] stands for
    [new Date(d).toLocaleString()], which depends on the browser's locale. *)
Definition fmtTime (toLocaleString : Z -> string) (d : option Z) : string :=
  match d with
  | None => dash
  | Some z => if Z.eqb z 0 then dash else toLocaleString z
  end.

(** ** [statusToClass], [statusToLabel] *)

Definition statusToClass (s : Status) : string :=
  match s with
  | UP | UP_OPAQUE => "state-ok"
  | SLOW => "state-warn"
  | DOWN => "state-bad"
  | CHECKING => "state-check"
  end.

(** [note ? `DOWN (${note})` : "DOWN"]: the empty string is falsy. *)
Definition statusToLabel (s : Status) (note : string) : string :=
  match s with
  | UP => "UP & RUNNING"
  | UP_OPAQUE => "UP & RUNNING"
  | SLOW => "SLOW"
  | DOWN => if decide (note = "") then "DOWN" else "DOWN (" +:+ note +:+ ")"
  | CHECKING => "CHECKING"
  end.

(** ** The rows of [render] *)

(** [state.get(t.url) || { status: "CHECKING", latencyMs: null,
    lastChecked: null, note: "" }], field by field. *)
Definition shown_status (o : option Entry.t) : Status :=
  match o with Some s => Entry.status s | None => CHECKING end.

Definition shown_latency (o : option Entry.t) : option Q :=
  match o with Some s => Entry.latencyMs s | None => None end.

Definition shown_lastChecked (o : option Entry.t) : option Z :=
  match o with Some s => Some (Entry.lastChecked s) | None => None end.

Definition shown_note (o : option Entry.t) : string :=
  match o with Some s => Entry.note s | None => "" end.

(** The text between the interpolations of the row template. *)
Definition row_piece0 : string :=
  nl +:+ "      <li class=" +:+ dq +:+ "row ".

Definition row_piece1 : string :=
  dq +:+ ">" +:+ nl +:+ "        <div class=" +:+ dq +:+ "left" +:+ dq +:+ ">" +:+ nl +:+
  "          <span class=" +:+ dq +:+ "badge" +:+ dq +:+ ">".

Definition row_piece2 : string :=
  "</span>" +:+ nl +:+ "          <span class=" +:+ dq +:+ "name" +:+ dq +:+ " title=" +:+
  dq.

Definition row_piece3 : string :=
  dq +:+ ">".

Definition row_piece4 : string :=
  "</span>" +:+ nl +:+ "        </div>" +:+ nl +:+ nl +:+ "        <div class=" +:+ dq +:+
  "url" +:+ dq +:+ " title=" +:+ dq.

Definition row_piece5 : string :=
  dq +:+ ">".

Definition row_piece6 : string :=
  "</div>" +:+ nl +:+ nl +:+ "        <div class=" +:+ dq +:+ "state" +:+ dq +:+ ">" +:+
  nl +:+ "          <span class=" +:+ dq +:+ "dot" +:+ dq +:+ " aria-hidden=" +:+ dq +:+
  "true" +:+ dq +:+ "></span>" +:+ nl +:+ "          <span class=" +:+ dq +:+
  "stateText" +:+ dq +:+ ">".

Definition row_piece7 : string :=
  "</span>" +:+ nl +:+ "        </div>" +:+ nl +:+ nl +:+ "        <div class=" +:+ dq +:+
  "meta" +:+ dq +:+ ">" +:+ nl +:+ "          <div>Last: <span class=" +:+ dq +:+
  "muted" +:+ dq +:+ ">".

Definition row_piece8 : string :=
  "</span></div>" +:+ nl +:+ "          <div>RTT: <span class=" +:+ dq +:+ "muted" +:+
  dq +:+ ">".

Definition row_piece9 : string :=
  "</span></div>" +:+ nl +:+ "        </div>" +:+ nl +:+ "      </li>" +:+ nl +:+ "    ".

(** The nine interpolated values of a row, in order. *)
Definition row_holes (toLocaleString : Z -> string) (t : Target.t)
    (o : option Entry.t) : list string :=
  let cls := statusToClass (shown_status o) in
  let label := statusToLabel (shown_status o) (shown_note o) in
  [cls;
   escapeHtml (Target.kind t);
   escapeHtml (Target.name t); escapeHtml (Target.name t);
   escapeHtml (Target.url t); escapeHtml (Target.url t);
   escapeHtml label;
   escapeHtml (fmtTime toLocaleString (shown_lastChecked o));
   escapeHtml (fmtLatency (shown_latency o))].

Definition row_pieces : list string :=
  [row_piece0; row_piece1; row_piece2; row_piece3; row_piece4; row_piece5;
   row_piece6; row_piece7; row_piece8; row_piece9].

(** A template literal: the pieces with the values in between. *)
Fixpoint template (pieces holes : list string) : string :=
  match pieces, holes with
  | p :: ps, h :: hs => p +:+ h +:+ template ps hs
  | p :: _, [] => p
  | [], _ => EmptyString
  end.

Definition row (toLocaleString : Z -> string) (state : gmap string Entry.t)
    (t : Target.t) : string :=
  template row_pieces (row_holes toLocaleString t (state !! Target.url t)).

(** [TARGETS.map(t => ...).join("")], the value given to [listEl.innerHTML]. *)
Definition render_items (toLocaleString : Z -> string) (targets : list Target.t)
    (state : gmap string Entry.t) : string :=
  foldr (fun r acc => r +:+ acc) EmptyString (row toLocaleString state <$> targets).

(** The class of the row shown for a target. *)
Definition row_class (state : gmap string Entry.t) (t : Target.t) : string :=
  statusToClass (shown_status (state !! Target.url t)).

Definition count_class (cls : string) (targets : list Target.t)
    (state : gmap string Entry.t) : nat :=
  length (filter (fun t => row_class state t = cls) targets).

(** ** The refresh button *)

(** [refreshBtn.addEventListener("click", () => runChecks())]: a click
    starts a cycle and leaves the interval timer alone. *)
Definition click (s : Sched.t) : Sched.t :=
  Sched.mk (Sched.samples s) (Sched.interval s) (S (Sched.cycles s)) (Sched.delays s).

Inductive PageEvent : Type := TimerFires | ButtonClicked.

Definition handle (s : Sched.t) (ev : PageEvent) : Sched.t :=
  match ev with
  | TimerFires => fire s
  | ButtonClicked => click s
  end.

(** The page after the events [evs], oldest first. *)
Definition after_events (rand : nat -> Q) (evs : list PageEvent) : Sched.t :=
  foldl handle (main rand) evs.

Definition is_timer (ev : PageEvent) : bool :=
  match ev with TimerFires => true | ButtonClicked => false end.

(** ** More about probes and cycles *)

(** The two requests of a probe, as [fetch] is called for them. *)
Definition first_call (url : string) : FetchCall := mkFetchCall url ModeDefault false.
Definition second_call (url : string) (was_aborted : bool) : FetchCall :=
  mkFetchCall url ModeNoCors was_aborted.

(** The urls of the targets. *)
Definition urls (targets : list Target.t) : list string := Target.url <$> targets.

(** Entry [e] was stored by a worker of this cycle for a target with url
    [u]. *)
Definition stored_by (targets : list Target.t) (tr : list Event) (u : string)
    (e : Entry.t) : Prop :=
  exists (k idx : nat) (r : ProbeResult) (now : Z) (t : Target.t),
    Complete k idx r ∈ tr /\ targets !! idx = Some t /\ Target.url t = u /\
    e = entry_of r now.

(** ** Two cycles at once *)

(** The state map is one object, shared by all calls of [runChecks]; the
    cursor and the workers are each call's own. [on_map p state] is the pool
    of a cycle whose workers find the map as another cycle has left it. *)
Definition on_map (p : Pool.t) (state : gmap string Entry.t) : Pool.t :=
  Pool.mk (Pool.i p) (Pool.workers p) state (Pool.renders p) (Pool.trace p).

(** Scenario E again: four probes of a first cycle have settled when a
    click starts a second cycle on the same map; then the last probe of the
    first cycle settles. *)
Definition first_cycle_4 : Pool.t :=
  default start5 (run five_targets (take 4 schedule5) start5).

Definition second_cycle_0 : Pool.t :=
  runChecks_start five_targets 2 noon (Pool.state first_cycle_4).

Definition first_cycle_5 : Pool.t :=
  default first_cycle_4
    (run five_targets (drop 4 schedule5)
       (on_map first_cycle_4 (Pool.state second_cycle_0))).

(** Example data. *)
Definition locale_iso (z : Z) : string := "t=" +:+ pretty z.

Definition hostile_target : Target.t :=
  Target.mk "<script>alert('x')</script>" "A&B" ("http://h/?q=" +:+ dq +:+ "><img>").
(** * Properties of the probe *)

Lemma Qgtb_true (a b : Q) : Qgtb a b = true <-> (b < a)%Q.
Proof.
  unfold Qgtb. rewrite negb_true_iff, <- not_true_iff_false, Qle_bool_iff.
  split; [apply Qnot_le_lt | apply Qlt_not_le].
Qed.

Lemma Qgtb_false (a b : Q) : Qgtb a b = false <-> (a <= b)%Q.
Proof.
  unfold Qgtb. rewrite negb_false_iff, Qle_bool_iff. reflexivity.
Qed.

Lemma elapsed1_eq (w : World) : (elapsed1 w == d1 w)%Q.
Proof. unfold elapsed1. ring. Qed.

Lemma elapsed2_eq (w : World) : (elapsed2 w == d1 w + d2 w)%Q.
Proof. unfold elapsed2. ring. Qed.

Ltac run_probe :=
  unfold probe, checkTarget, try_catch, fetch, is_abort, get_name, throw,
    new_AbortController, setTimeout_abort, clearTimeout, performance_now,
    boot, mbind, M_bind, mret, M_ret; simpl.

Section ProbeCases.
Variables (w : World) (url : string).

Lemma probe_readable (r : Response) :
  phase1 w = NetResolve r ->
  (probe w url).1 =
    Normal (if res_ok r
            then mkProbeResult (slow_or UP (elapsed1 w)) (Some (elapsed1 w))
                   (http_note (res_status r))
            else mkProbeResult DOWN (Some (elapsed1 w)) (http_note (res_status r))).
Proof.
  intros H1. run_probe. rewrite H1. simpl. destruct (res_ok r); reflexivity.
Qed.

Lemma probe_fallback_resolved (e : JsValue) (r2 : Response) :
  phase1 w = NetReject e -> phase2 w = NetResolve r2 ->
  (probe w url).1 =
    Normal (if bool_decide (res_type r2 = Opaque)
            then mkProbeResult (slow_or UP_OPAQUE (elapsed2 w)) (Some (elapsed2 w))
                   "CORS blocked details"
            else mkProbeResult (slow_or UP (elapsed2 w)) (Some (elapsed2 w)) "OK").
Proof.
  intros H1 H2. run_probe. rewrite H1. simpl. rewrite H2. simpl.
  destruct (bool_decide (res_type r2 = Opaque)); reflexivity.
Qed.

Lemma probe_fallback_rejected (e e2 : JsValue) :
  phase1 w = NetReject e -> phase2 w = NetReject e2 ->
  (probe w url).1 =
    Normal (mkProbeResult DOWN None
              (if bool_decide (e2 = AbortError) then "timeout" else "unreachable")).
Proof.
  intros H1 H2. run_probe. rewrite H1. simpl. rewrite H2. simpl.
  destruct e2 as [| |n]; simpl; try reflexivity.
  unfold AbortError.
  destruct (decide (n = "AbortError")) as [->|Hn].
  - reflexivity.
  - rewrite !bool_decide_eq_false_2; [reflexivity | congruence | assumption].
Qed.

Lemma probe_fallback_deadline (e : JsValue) :
  phase1 w = NetReject e -> phase2 w = NetDeadline ->
  (probe w url).1 = Normal (mkProbeResult DOWN None "timeout").
Proof.
  intros H1 H2. run_probe. rewrite H1. simpl. rewrite H2. reflexivity.
Qed.

(** The deadline fires during the first request: the catch block still
    calls [fetch] in no-cors mode, on the aborted signal; the platform
    rejects that call at once and sends nothing. *)
Lemma probe_deadline :
  phase1 w = NetDeadline ->
  probe w url =
    (Normal (mkProbeResult DOWN None "timeout"),
     mkPlatform true false (start w + d1 w)%Q
       [mkFetchCall url ModeDefault false; mkFetchCall url ModeNoCors true] 1).
Proof.
  intros H1. run_probe. rewrite H1. reflexivity.
Qed.

(** The probe completes normally in every world, through one of the
    [return]s of [checkTarget]. *)
Lemma probe_outcome : exists r : ProbeResult, (probe w url).1 = Normal r /\ outcome w r.
Proof.
  destruct (phase1 w) as [r|e|] eqn:H1.
  - rewrite (probe_readable r H1).
    destruct (res_ok r) eqn:Hok; eexists; (split; [reflexivity|]).
    + by apply outcome_ok.
    + by apply outcome_http_failure.
  - destruct (phase2 w) as [r2|e2|] eqn:H2.
    + rewrite (probe_fallback_resolved e r2 H1 H2).
      case_bool_decide; eexists; (split; [reflexivity|]).
      * by eapply outcome_opaque.
      * by eapply outcome_inspectable.
    + rewrite (probe_fallback_rejected e e2 H1 H2).
      case_bool_decide; eexists; (split; [reflexivity|]).
      * subst e2. by eapply outcome_abort_error.
      * by eapply outcome_unreachable.
    + rewrite (probe_fallback_deadline e H1 H2).
      eexists; split; [reflexivity|]. by eapply outcome_deadline2.
  - rewrite (probe_deadline H1). simpl.
    eexists; split; [reflexivity|]. by apply outcome_deadline1.
Qed.
End ProbeCases.

Example scenario_A :
  (probe (mkWorld 0 (NetResolve (mkResponse true 200 Basic)) 300 NetDeadline 0) "u").1
  = Normal (mkProbeResult UP (Some (0 + 300 - 0)%Q) "HTTP 200").
Proof. vm_compute. reflexivity. Qed.

Example scenario_B :
  (probe world_500 "u").1 = Normal (mkProbeResult DOWN (Some (0 + 50 - 0)%Q) "HTTP 500").
Proof. vm_compute. reflexivity. Qed.

Example scenario_C :
  (probe (mkWorld 0 (NetReject TypeError) 100 (NetResolve (resp false 0 Opaque)) 300) "u").1
  = Normal (mkProbeResult UP_OPAQUE (Some (0 + 100 + 300 - 0)%Q) "CORS blocked details").
Proof. vm_compute. reflexivity. Qed.

Example scenario_D :
  (probe world_timeout "u").1 = Normal (mkProbeResult DOWN None "timeout").
Proof. vm_compute. reflexivity. Qed.

(** ** The 1200 ms threshold *)

Lemma slow_or_le (fast : Status) (ms : Q) : (ms <= 1200)%Q -> slow_or fast ms = fast.
Proof. intros H. unfold slow_or. by rewrite (proj2 (Qgtb_false ms 1200) H). Qed.

Lemma slow_or_gt (fast : Status) (ms : Q) : (1200 < ms)%Q -> slow_or fast ms = SLOW.
Proof. intros H. unfold slow_or. by rewrite (proj2 (Qgtb_true ms 1200) H). Qed.

Lemma slow_or_cases (fast : Status) (ms : Q) :
  ((ms <= 1200)%Q /\ slow_or fast ms = fast) \/ ((1200 < ms)%Q /\ slow_or fast ms = SLOW).
Proof.
  destruct (Qlt_le_dec 1200 ms) as [H|H].
  - right. split; [done | by apply slow_or_gt].
  - left. split; [done | by apply slow_or_le].
Qed.

(** The comparison made on the measured [ms], read on the time [t] it
    measures. *)
Lemma threshold_split (fast : Status) (ms t : Q) :
  (ms == t)%Q ->
  ((t <= 1200)%Q -> slow_or fast ms = fast) /\ ((1200 < t)%Q -> slow_or fast ms = SLOW).
Proof.
  intros E. split; intros H.
  - apply slow_or_le. by rewrite E.
  - apply slow_or_gt. by rewrite E.
Qed.

(** Reading the world through an [outcome]. *)
Ltac world_facts :=
  unfold fetch_resolved, successful, readable_failure, deadline_fired, total_time in *;
  repeat match goal with
         | H : phase1 _ = _ |- _ => rewrite H in *; clear H
         | H : phase2 _ = _ |- _ => rewrite H in *; clear H
         end.

(** C1, as the specification words it, fails: a probe that resolves with a
    readable 500 after 50 ms is within the threshold and is classified DOWN,
    neither UP nor UP_OPAQUE. *)
Lemma readable_failure_within_threshold_is_down :
  fetch_resolved world_500 /\ (total_time world_500 <= 1200)%Q /\
  exists r : ProbeResult,
    (probe world_500 "http://192.168.8.50:8006").1 = Normal r /\
    status r = DOWN /\ status r <> UP /\ status r <> UP_OPAQUE.
Proof.
  split; [exact I|]. split; [by vm_compute|].
  eexists. split; [vm_compute; reflexivity|]. by simpl.
Qed.

(** C1 (amended): a probe in which a request resolved reports as latency
    the time since [t0], over both requests when the second one resolved. With a
    readable ok status or a resolved second request it is UP or UP_OPAQUE
    when that time is at most 1200 ms and SLOW when it is more; with a
    readable non-ok status it is DOWN; within 1200 ms it is never SLOW. *)
Theorem threshold_law (w : World) (url : string) :
  fetch_resolved w ->
  exists (r : ProbeResult) (ms : Q),
    (probe w url).1 = Normal r /\ latencyMs r = Some ms /\ (ms == total_time w)%Q /\
    ((total_time w <= 1200)%Q -> status r <> SLOW) /\
    (successful w ->
       ((total_time w <= 1200)%Q -> status r = UP \/ status r = UP_OPAQUE) /\
       ((1200 < total_time w)%Q -> status r = SLOW)) /\
    (readable_failure w -> status r = DOWN).
Proof.
  intros Hres. destruct (probe_outcome w url) as (r & Hr & Ho).
  destruct Ho as [r1 H1 Hok|r1 H1 Hok|e r2 H1 H2 Hty|e r2 H1 H2 Hty|H1|e H1 H2|e H1 H2|e e2 H1 H2 Hne];
    try (world_facts; contradiction).
  - eexists. exists (elapsed1 w). split; [exact Hr|].
    destruct (threshold_split UP (elapsed1 w) (total_time w)) as (Hle & Hgt).
    { world_facts. apply elapsed1_eq. }
    world_facts. simpl.
    split; [reflexivity|]. split; [apply elapsed1_eq|].
    split; [intros H; by rewrite (Hle H)|].
    split; [intros _; split; [intros H; left; by apply Hle | exact Hgt]|].
    intros ?; congruence.
  - eexists. exists (elapsed1 w). split; [exact Hr|].
    world_facts. simpl.
    split; [reflexivity|]. split; [apply elapsed1_eq|].
    split; [done|]. split; [intros ?; congruence | done].
  - eexists. exists (elapsed2 w). split; [exact Hr|].
    destruct (threshold_split UP_OPAQUE (elapsed2 w) (total_time w)) as (Hle & Hgt).
    { world_facts. apply elapsed2_eq. }
    world_facts. simpl.
    split; [reflexivity|]. split; [apply elapsed2_eq|].
    split; [intros H; by rewrite (Hle H)|].
    split; [intros _; split; [intros H; right; by apply Hle | exact Hgt]|].
    intros [].
  - eexists. exists (elapsed2 w). split; [exact Hr|].
    destruct (threshold_split UP (elapsed2 w) (total_time w)) as (Hle & Hgt).
    { world_facts. apply elapsed2_eq. }
    world_facts. simpl.
    split; [reflexivity|]. split; [apply elapsed2_eq|].
    split; [intros H; by rewrite (Hle H)|].
    split; [intros _; split; [intros H; left; by apply Hle | exact Hgt]|].
    intros [].
Qed.

(** Each request of [world_cors_slow] is under 1200 ms, together they are
    not: the result is SLOW. *)
Lemma threshold_law_witness :
  fetch_resolved world_cors_slow /\
  exists (r : ProbeResult) (ms : Q),
    (probe world_cors_slow "https://hobbstech.co.uk/").1 = Normal r /\
    latencyMs r = Some ms /\ (ms == total_time world_cors_slow)%Q /\
    ((total_time world_cors_slow <= 1200)%Q -> status r <> SLOW) /\
    (successful world_cors_slow ->
       ((total_time world_cors_slow <= 1200)%Q -> status r = UP \/ status r = UP_OPAQUE) /\
       ((1200 < total_time world_cors_slow)%Q -> status r = SLOW)) /\
    (readable_failure world_cors_slow -> status r = DOWN).
Proof.
  split; [exact I|].
  apply (threshold_law world_cors_slow "https://hobbstech.co.uk/"). exact I.
Defined.

Example cumulative_threshold :
  (d1 world_cors_slow <= 1200)%Q /\ (d2 world_cors_slow <= 1200)%Q /\
  status <$> (match (probe world_cors_slow "u").1 with Normal r => Some r | Throw _ => None end)
  = Some SLOW.
Proof. split; [by vm_compute|]. split; [by vm_compute|]. vm_compute. reflexivity. Qed.

(** ** Failures of the probe *)

Lemma http_note_not_timeout (code : N) :
  http_note code <> "timeout" /\ http_note code <> "unreachable" /\ http_note code <> "".
Proof. unfold http_note. simpl. repeat split; discriminate. Qed.

Lemma slow_or_fast_or_slow (fast : Status) (ms : Q) :
  slow_or fast ms = fast \/ slow_or fast ms = SLOW.
Proof. unfold slow_or. destruct (Qgtb ms 1200); auto. Qed.

Section LatencyRule.
Lemma latency_rule_present (s : Status) (ms : Q) (n : string) :
  s = UP \/ s = UP_OPAQUE \/ s = SLOW -> latency_rule s (Some ms) n.
Proof.
  intros Hs. split; split.
  - intros _. by left.
  - intros _. by exists ms.
  - discriminate.
  - intros [Hc | [Hd _]]; destruct Hs as [-> | [-> | ->]]; discriminate.
Qed.

Lemma latency_rule_http (ms : Q) (code : N) :
  latency_rule DOWN (Some ms) (http_note code).
Proof.
  destruct (http_note_not_timeout code) as (Ht & Hu & _).
  split; split.
  - intros _. right. split; [reflexivity | by exists code].
  - intros _. by exists ms.
  - discriminate.
  - intros [Hc | [_ [Hn | Hn]]]; [discriminate | by destruct Ht | by destruct Hu].
Qed.

Lemma latency_rule_absent (n : string) :
  n = "timeout" \/ n = "unreachable" -> latency_rule DOWN None n.
Proof.
  intros Hn. split; split.
  - intros [ms Hms]. discriminate.
  - intros [[Hs | [Hs | Hs]] | [_ [code Hc]]]; try discriminate.
    destruct (http_note_not_timeout code) as (Ht & Hu & _).
    destruct Hn as [-> | ->]; [by destruct Ht | by destruct Hu].
  - intros _. right. by split.
  - reflexivity.
Qed.

Lemma latency_rule_checking : latency_rule CHECKING None "".
Proof.
  split; split.
  - intros [ms Hms]. discriminate.
  - intros [[Hs | [Hs | Hs]] | [Hs _]]; discriminate.
  - intros _. by left.
  - reflexivity.
Qed.
End LatencyRule.

(** What every returned result looks like. *)
Lemma outcome_shape (w : World) (r : ProbeResult) :
  outcome w r ->
  status r <> CHECKING /\ note r <> "" /\ latency_rule (status r) (latencyMs r) (note r).
Proof.
  intros Ho.
  destruct Ho as [r1 H1 Hok|r1 H1 Hok|e r2 H1 H2 Hty|e r2 H1 H2 Hty|H1|e H1 H2|e H1 H2|e e2 H1 H2 Hne];
    simpl.
  - destruct (http_note_not_timeout (res_status r1)) as (_ & _ & Hne).
    destruct (slow_or_fast_or_slow UP (elapsed1 w)) as [-> | ->];
      (split; [discriminate|]); (split; [exact Hne|]); apply latency_rule_present; auto.
  - destruct (http_note_not_timeout (res_status r1)) as (_ & _ & Hne).
    split; [discriminate|]. split; [exact Hne|]. apply latency_rule_http.
  - destruct (slow_or_fast_or_slow UP_OPAQUE (elapsed2 w)) as [-> | ->];
      (split; [discriminate|]); (split; [discriminate|]); apply latency_rule_present; auto.
  - destruct (slow_or_fast_or_slow UP (elapsed2 w)) as [-> | ->];
      (split; [discriminate|]); (split; [discriminate|]); apply latency_rule_present; auto.
  - split; [discriminate|]. split; [discriminate|]. apply latency_rule_absent. by left.
  - split; [discriminate|]. split; [discriminate|]. apply latency_rule_absent. by left.
  - split; [discriminate|]. split; [discriminate|]. apply latency_rule_absent. by left.
  - split; [discriminate|]. split; [discriminate|]. apply latency_rule_absent. by right.
Qed.

(** C3, as the specification words it, fails: when the deadline fires during
    the first request, [checkTarget] still makes its second attempt, a
    [fetch] in no-cors mode. *)
Lemma deadline_second_fetch_is_called :
  phase1 world_timeout = NetDeadline /\
  call_mode <$> fetches (probe world_timeout "http://192.168.8.178:8006").2
  = [ModeDefault; ModeNoCors].
Proof. split; [reflexivity | vm_compute; reflexivity]. Qed.

(** C3 (amended): when the deadline fires during the first request the result
    is DOWN with note "timeout" and no latency. The catch block still calls
    [fetch] a second time, in no-cors mode on the same signal; that signal
    is already aborted, so the platform rejects the call at once: one
    request was sent, and the clock has not moved past the deadline. *)
Theorem deadline_in_phase1 (w : World) (url : string) :
  phase1 w = NetDeadline ->
  (probe w url).1 = Normal (mkProbeResult DOWN None "timeout") /\
  fetches (probe w url).2
    = [mkFetchCall url ModeDefault false; mkFetchCall url ModeNoCors true] /\
  requests (probe w url).2 = 1 /\
  now (probe w url).2 = (start w + d1 w)%Q.
Proof.
  intros H1. rewrite (probe_deadline w url H1). simpl. done.
Qed.

Lemma deadline_in_phase1_witness :
  phase1 world_timeout = NetDeadline /\
  (probe world_timeout "u").1 = Normal (mkProbeResult DOWN None "timeout") /\
  fetches (probe world_timeout "u").2
    = [mkFetchCall "u" ModeDefault false; mkFetchCall "u" ModeNoCors true] /\
  requests (probe world_timeout "u").2 = 1 /\
  now (probe world_timeout "u").2 = (start world_timeout + d1 world_timeout)%Q.
Proof.
  split; [reflexivity|]. apply (deadline_in_phase1 world_timeout "u"). reflexivity.
Defined.

(** C4: in every world the probe completes normally with a result, never by
    throwing, and each failure is told by the result: a readable non-ok
    status is DOWN with the status code as note, an opaque response is
    UP_OPAQUE or SLOW with note "CORS blocked details", a fired deadline is
    DOWN "timeout", two rejected requests are DOWN "unreachable". *)
Theorem checkTarget_never_throws (w : World) (url : string) :
  exists r : ProbeResult,
    (probe w url).1 = Normal r /\
    (status r = UP \/ status r = UP_OPAQUE \/ status r = SLOW \/ status r = DOWN) /\
    (readable_failure w ->
       status r = DOWN /\ exists code : N, note r = http_note code) /\
    (visibility_restricted w ->
       (status r = UP_OPAQUE \/ status r = SLOW) /\ note r = "CORS blocked details") /\
    (deadline_fired w -> status r = DOWN /\ note r = "timeout") /\
    (unreachable w -> status r = DOWN /\ note r = "unreachable").
Proof.
  destruct (probe_outcome w url) as (r & Hr & Ho). exists r. split; [exact Hr|].
  clear Hr. unfold visibility_restricted, unreachable.
  destruct Ho as [r1 H1 Hok|r1 H1 Hok|e r2 H1 H2 Hty|e r2 H1 H2 Hty|H1|e H1 H2|e H1 H2|e e2 H1 H2 Hne];
    world_facts; simpl.
  - destruct (slow_or_fast_or_slow UP (elapsed1 w)) as [-> | ->];
      (split; [tauto|]); (split; [intros ?; congruence | tauto]).
  - split; [tauto|]. split; [|tauto]. intros _. split; [reflexivity | by eexists].
  - destruct (slow_or_fast_or_slow UP_OPAQUE (elapsed2 w)) as [-> | ->];
      (split; [tauto|]); (split; [tauto|]); (split; [|split; [discriminate | tauto]]);
      intros _; (split; [tauto | reflexivity]).
  - destruct (slow_or_fast_or_slow UP (elapsed2 w)) as [-> | ->];
      (split; [tauto|]); (split; [tauto|]);
      (split; [intros ?; congruence | split; [discriminate | tauto]]).
  - split; [tauto|]. split; [tauto|]. split; [tauto|]. split; [done | tauto].
  - split; [tauto|]. split; [tauto|]. split; [tauto|]. split; [done | tauto].
  - split; [tauto|]. split; [tauto|]. split; [tauto|].
    split; [intros Habs; discriminate Habs|]. intros Hne. by destruct Hne.
  - split; [tauto|]. split; [tauto|]. split; [tauto|].
    split; [intros Habs; discriminate Habs | done].
Qed.

(** C9: when the first request is rejected and the no-cors retry resolves
    with a response that is not opaque, the result has note "OK" and is UP
    within 1200 ms and SLOW beyond, whatever [ok] and [status] the response
    carries; it is never DOWN. *)
Theorem fallback_ignores_status (w : World) (url : string) (e : JsValue) (r2 : Response) :
  phase1 w = NetReject e -> phase2 w = NetResolve r2 -> res_type r2 <> Opaque ->
  exists r : ProbeResult,
    (probe w url).1 = Normal r /\ note r = "OK" /\ status r <> DOWN /\
    ((total_time w <= 1200)%Q -> status r = UP) /\
    ((1200 < total_time w)%Q -> status r = SLOW).
Proof.
  intros H1 H2 Hty. rewrite (probe_fallback_resolved w url e r2 H1 H2).
  rewrite bool_decide_eq_false_2 by exact Hty.
  eexists. split; [reflexivity|]. simpl. split; [reflexivity|].
  destruct (threshold_split UP (elapsed2 w) (total_time w)) as (Hle & Hgt).
  { unfold total_time. rewrite H1. apply elapsed2_eq. }
  split; [|split; assumption].
  destruct (slow_or_fast_or_slow UP (elapsed2 w)) as [-> | ->]; discriminate.
Qed.

Lemma fallback_ignores_status_witness :
  phase1 world_retry_500 = NetReject TypeError /\
  phase2 world_retry_500 = NetResolve (resp false 500 Basic) /\
  res_type (resp false 500 Basic) <> Opaque /\
  exists r : ProbeResult,
    (probe world_retry_500 "/health").1 = Normal r /\ note r = "OK" /\ status r <> DOWN /\
    ((total_time world_retry_500 <= 1200)%Q -> status r = UP) /\
    ((1200 < total_time world_retry_500)%Q -> status r = SLOW).
Proof.
  split; [reflexivity|]. split; [reflexivity|]. split; [discriminate|].
  apply (fallback_ignores_status world_retry_500 "/health" TypeError (resp false 500 Basic));
    [reflexivity | reflexivity | discriminate].
Defined.

Example retry_500_is_up :
  (probe world_retry_500 "/health").1
  = Normal (mkProbeResult UP (Some (0 + 20 + 30 - 0)%Q) "OK").
Proof. vm_compute. reflexivity. Qed.

(** * Properties of the worker pool *)

(** ** One pass through the loop head *)

Lemma loop_head_cases (targets : list Target.t) (k : nat) (p : Pool.t) :
  (Pool.i p < length targets /\
   exists t, targets !! Pool.i p = Some t /\
     loop_head targets k p =
       (Awaiting (Pool.i p) t,
        Pool.mk (S (Pool.i p)) (Pool.workers p) (Pool.state p) (Pool.renders p)
          (Pool.trace p ++ [Claim k (Pool.i p)])))
  \/ (length targets <= Pool.i p /\ loop_head targets k p = (Finished, p)).
Proof.
  unfold loop_head. case_decide as Hlt.
  - left. split; [exact Hlt|].
    destruct (lookup_lt_is_Some_2 targets (Pool.i p) Hlt) as [t Ht].
    exists t. split; [exact Ht|]. by rewrite Ht.
  - right. split; [lia | reflexivity].
Qed.

Lemma spawn_cases (targets : list Target.t) (p : Pool.t) :
  (Pool.i p < length targets /\
   exists t, targets !! Pool.i p = Some t /\
     spawn targets p =
       Pool.mk (S (Pool.i p)) (Pool.workers p ++ [Awaiting (Pool.i p) t]) (Pool.state p)
         (Pool.renders p) (Pool.trace p ++ [Claim (length (Pool.workers p)) (Pool.i p)]))
  \/ (length targets <= Pool.i p /\
      spawn targets p =
        Pool.mk (Pool.i p) (Pool.workers p ++ [Finished]) (Pool.state p)
          (Pool.renders p) (Pool.trace p)).
Proof.
  unfold spawn.
  destruct (loop_head_cases targets (length (Pool.workers p)) p)
    as [(Hlt & t & Ht & ->) | (Hge & ->)].
  - left. split; [exact Hlt|]. exists t. by split.
  - right. by split.
Qed.

(** A resumed worker was awaiting; its probe returned through one of the
    [return]s of [checkTarget]; the result is stored; the worker claims the
    next index or leaves. *)
Lemma resume_cases (targets : list Target.t) (k : nat) (w : World) (now : Z)
    (p p' : Pool.t) :
  resume targets k w now p = Some p' ->
  exists idx t r,
    Pool.workers p !! k = Some (Awaiting idx t) /\
    (probe w (Target.url t)).1 = Normal r /\ outcome w r /\
    ((Pool.i p < length targets /\
      exists t', targets !! Pool.i p = Some t' /\
        p' = Pool.mk (S (Pool.i p)) (<[k := Awaiting (Pool.i p) t']> (Pool.workers p))
               (<[Target.url t := entry_of r now]> (Pool.state p))
               (S (Pool.renders p))
               ((Pool.trace p ++ [Complete k idx r]) ++ [Claim k (Pool.i p)]))
     \/
     (length targets <= Pool.i p /\
      p' = Pool.mk (Pool.i p) (<[k := Finished]> (Pool.workers p))
             (<[Target.url t := entry_of r now]> (Pool.state p))
             (S (Pool.renders p))
             (Pool.trace p ++ [Complete k idx r]))).
Proof.
  unfold resume. intros Hres.
  destruct (Pool.workers p !! k) as [[idx t| |e]|] eqn:Hk; try discriminate.
  destruct (probe_outcome w (Target.url t)) as (r & Hr & Ho).
  rewrite Hr in Hres. exists idx, t, r. split; [reflexivity|]. split; [exact Hr|].
  split; [exact Ho|].
  match type of Hres with
  | (let '(_, _) := loop_head ?ts ?k ?q in _) = _ =>
      destruct (loop_head_cases ts k q) as [(Hlt & t' & Ht' & Hl) | (Hge & Hl)];
        rewrite Hl in Hres; simpl in *
  end.
  - left. split; [exact Hlt|]. exists t'. split; [exact Ht'|]. congruence.
  - right. split; [exact Hge|]. congruence.
Qed.

(** ** Traces and worker lists *)

Section TraceFacts.
Implicit Types (tr : list Event) (ws : list Worker).

Lemma claims_snoc_claim tr k idx : claims (tr ++ [Claim k idx]) = claims tr ++ [idx].
Proof. unfold claims. by rewrite omap_app. Qed.

Lemma claims_snoc_complete tr k idx r : claims (tr ++ [Complete k idx r]) = claims tr.
Proof. unfold claims. rewrite omap_app. simpl. by rewrite app_nil_r. Qed.

Lemma completions_snoc_claim tr k idx :
  completions (tr ++ [Claim k idx]) = completions tr.
Proof. unfold completions. rewrite filter_app. simpl. by rewrite app_nil_r. Qed.

Lemma completions_snoc_complete tr k idx r :
  completions (tr ++ [Complete k idx r]) = S (completions tr).
Proof.
  unfold completions. rewrite filter_app, length_app. simpl. lia.
Qed.

Lemma replay_snoc tr ev : replay (tr ++ [ev]) = replay_event (replay tr) ev.
Proof. unfold replay. by rewrite foldl_app. Qed.

Lemma awaiting_cons wk ws :
  length (filter is_awaiting (wk :: ws)) = awaiting_bit wk + length (filter is_awaiting ws).
Proof.
  rewrite filter_cons. unfold awaiting_bit.
  destruct (decide (is_awaiting wk)) as [H | H]; destruct wk; simpl in *;
    try reflexivity; try contradiction.
  all: by destruct H.
Qed.

Lemma awaiting_snoc ws wk :
  length (filter is_awaiting (ws ++ [wk])) = length (filter is_awaiting ws) + awaiting_bit wk.
Proof.
  rewrite filter_app, length_app.
  rewrite (awaiting_cons wk []). simpl. lia.
Qed.

Lemma awaiting_insert ws k old new :
  ws !! k = Some old ->
  length (filter is_awaiting (<[k := new]> ws)) + awaiting_bit old
  = length (filter is_awaiting ws) + awaiting_bit new.
Proof.
  revert k. induction ws as [|wk ws IH]; intros k Hk; [done|].
  destruct k as [|k]; simpl in *.
  - injection Hk as ->. rewrite !awaiting_cons. lia.
  - rewrite !awaiting_cons. specialize (IH k Hk). lia.
Qed.

(** No probe in flight and no crash: every worker has left its loop. *)
Lemma no_awaiting_all_finished ws :
  length (filter is_awaiting ws) = 0 ->
  (forall k e, ws !! k <> Some (Crashed e)) ->
  forallb is_finished ws = true.
Proof.
  induction ws as [|wk ws IH]; intros Hz Hc; [done|].
  rewrite awaiting_cons in Hz. simpl.
  destruct wk as [idx t| |e]; simpl in *.
  - unfold awaiting_bit in Hz. simpl in Hz. lia.
  - apply IH; [lia|]. intros k e. apply (Hc (S k) e).
  - by destruct (Hc 0 e).
Qed.

Lemma all_finished_no_awaiting ws :
  forallb is_finished ws = true -> length (filter is_awaiting ws) = 0.
Proof.
  induction ws as [|wk ws IH]; intros Hf; [done|].
  simpl in Hf. apply andb_true_iff in Hf as [Hwk Hws].
  rewrite awaiting_cons, (IH Hws). by destruct wk.
Qed.

Lemma all_finished_lookup ws k wk :
  forallb is_finished ws = true -> ws !! k = Some wk -> wk = Finished.
Proof.
  revert k. induction ws as [|wk' ws IH]; intros k Hf Hk; [done|].
  simpl in Hf. apply andb_true_iff in Hf as [Hwk Hws].
  destruct k as [|k]; simpl in Hk.
  - injection Hk as ->. by destruct wk.
  - by apply (IH k).
Qed.
End TraceFacts.

(** ** The entries written at the start of a cycle *)

Lemma set_all_checking_lookup (clock : nat -> Z) (targets : list Target.t) :
  forall (n : nat) (state : gmap string Entry.t) (u : string),
    (exists t, t ∈ targets /\ Target.url t = u) \/
    (exists m, state !! u = Some (checking_entry (clock m))) ->
    exists m, set_all_checking clock n targets state !! u = Some (checking_entry (clock m)).
Proof.
  induction targets as [|a ts IH]; intros n state u H; simpl.
  - destruct H as [(t & Ht & _) | H]; [by apply elem_of_nil in Ht | exact H].
  - apply IH. destruct (decide (Target.url a = u)) as [Heq | Hne].
    + right. exists n. rewrite <- Heq. apply lookup_insert_eq.
    + destruct H as [(t & Ht & Hu) | (m & Hm)].
      * apply elem_of_cons in Ht as [-> | Ht]; [done|]. left. by exists t.
      * right. exists m. by rewrite lookup_insert_ne.
Qed.

Lemma set_all_checking_dom (clock : nat -> Z) (targets : list Target.t) :
  forall (n : nat) (state : gmap string Entry.t),
    dom (set_all_checking clock n targets state)
    = dom state ∪ list_to_set (Target.url <$> targets).
Proof.
  induction targets as [|a ts IH]; intros n state; simpl.
  - set_solver.
  - rewrite IH, dom_insert_L. set_solver.
Qed.

(** ** The invariant of a cycle *)

Ltac pool_simpl :=
  unfold pending, settled, in_flight in *;
  cbn [Pool.i Pool.workers Pool.state Pool.renders Pool.trace] in *.

Section Replay.
Implicit Types (tr : list Event) (busy : gmap nat nat) (ws : list Worker).

Lemma replay_claim tr busy k idx :
  replay tr = Some busy -> busy !! k = None ->
  replay (tr ++ [Claim k idx]) = Some (<[k := idx]> busy).
Proof. intros Hr Hk. rewrite replay_snoc, Hr. simpl. by rewrite Hk. Qed.

Lemma replay_complete tr busy k idx r :
  replay tr = Some busy -> busy !! k = Some idx ->
  replay (tr ++ [Complete k idx r]) = Some (delete k busy).
Proof.
  intros Hr Hk. rewrite replay_snoc, Hr. simpl. rewrite Hk.
  by rewrite decide_True.
Qed.

Lemma lookup_snoc_cases ws wk k :
  (ws ++ [wk]) !! k = if decide (k = length ws) then Some wk else ws !! k.
Proof.
  case_decide as Hk.
  - subst k. by rewrite list_lookup_middle.
  - destruct (decide (k < length ws)) as [Hlt | Hge].
    + by rewrite lookup_app_l.
    + transitivity (@None Worker); [|symmetry]; apply lookup_ge_None;
        rewrite ?length_app; simpl; lia.
Qed.

Lemma lookup_insert_cases ws wk k k' :
  k < length ws ->
  <[k := wk]> ws !! k' = if decide (k' = k) then Some wk else ws !! k'.
Proof.
  intros Hk. case_decide as Heq.
  - subst k'. by apply list_lookup_insert_eq.
  - by apply list_lookup_insert_ne.
Qed.
End Replay.

Lemma inv_init (targets : list Target.t) (clock : nat -> Z) (state0 : gmap string Entry.t) :
  pool_inv targets 0 (Pool.mk 0 [] (set_all_checking clock 0 targets state0) 1 []).
Proof.
  constructor; simpl; try done.
  - lia.
  - exists ∅. split; [reflexivity|]. intros k. by rewrite lookup_empty.
  - intros idx t _. left. left. simpl. lia.
  - intros t Ht.
    destruct (set_all_checking_lookup clock targets 0 state0 (Target.url t)) as [m Hm].
    { left. by exists t. }
    exists (checking_entry (clock m)). split; [exact Hm|]. apply latency_rule_checking.
Qed.

Lemma inv_spawn (targets : list Target.t) (n : nat) (p : Pool.t) :
  pool_inv targets n p -> pool_inv targets (S n) (spawn targets p).
Proof.
  intros [Hws Hcur Haw Hcr Hfin Hcl (busy & Hrep & Hbusy) Hcnt Hren Hset Hent].
  assert (Hfree : busy !! length (Pool.workers p) = None).
  { rewrite Hbusy. by rewrite (proj2 (lookup_ge_None _ _)). }
  destruct (spawn_cases targets p) as [(Hlt & t & Ht & ->) | (Hge & ->)];
    constructor; pool_simpl.
  - rewrite length_app. simpl. lia.
  - lia.
  - intros k idx t0. rewrite lookup_snoc_cases. case_decide.
    + intros [= <- <-]. split; [lia | exact Ht].
    + intros Hk. destruct (Haw k idx t0 Hk). split; [lia | done].
  - intros k e. rewrite lookup_snoc_cases. case_decide; [discriminate | apply Hcr].
  - intros k. rewrite lookup_snoc_cases. case_decide; [discriminate|].
    intros Hk. specialize (Hfin k Hk). lia.
  - rewrite claims_snoc_claim, Hcl, seq_S. reflexivity.
  - exists (<[length (Pool.workers p) := Pool.i p]> busy).
    split; [by apply replay_claim|].
    intros k. rewrite lookup_snoc_cases. case_decide as Hk.
    + subst k. by rewrite lookup_insert_eq.
    + rewrite lookup_insert_ne by done. apply Hbusy.
  - rewrite completions_snoc_claim. unfold in_flight in *. simpl.
    rewrite awaiting_snoc. unfold awaiting_bit. simpl. lia.
  - by rewrite completions_snoc_claim.
  - intros idx t0 Hidx. destruct (Hset idx t0 Hidx) as [[Hle | (k & Hk)] | Hs].
    + left. destruct (decide (idx = Pool.i p)) as [-> | Hne].
      * right. exists (length (Pool.workers p)). simpl.
        rewrite lookup_snoc_cases, decide_True by done. congruence.
      * left. simpl. lia.
    + left. right. exists k. simpl.
      rewrite lookup_app_l; [done | by eapply lookup_lt_Some].
    + by right.
  - exact Hent.
  - rewrite length_app. simpl. lia.
  - done.
  - intros k idx t0. rewrite lookup_snoc_cases. case_decide; [discriminate | apply Haw].
  - intros k e. rewrite lookup_snoc_cases. case_decide; [discriminate | apply Hcr].
  - intros _ _. lia.
  - exact Hcl.
  - exists busy. split; [exact Hrep|].
    intros k. rewrite lookup_snoc_cases. case_decide as Hk.
    + subst k. by rewrite Hfree.
    + apply Hbusy.
  - unfold in_flight in *. simpl. rewrite awaiting_snoc. unfold awaiting_bit. simpl. lia.
  - exact Hren.
  - intros idx t0 Hidx. destruct (Hset idx t0 Hidx) as [[Hle | (k & Hk)] | Hs].
    + left. left. simpl. lia.
    + left. right. exists k. simpl.
      rewrite lookup_app_l; [done | by eapply lookup_lt_Some].
    + by right.
  - exact Hent.
Qed.

(** The entry stored for a returned result obeys the latency rule and is not
    CHECKING. *)
Lemma entry_of_outcome (w : World) (r : ProbeResult) (now : Z) :
  outcome w r ->
  Entry.status (entry_of r now) <> CHECKING /\ entry_ok (entry_of r now) /\
  Entry.latencyMs (entry_of r now) = latencyMs r /\
  Entry.note (entry_of r now) = note r.
Proof.
  intros Ho. destruct (outcome_shape w r Ho) as (Hst & Hnote & Hrule).
  unfold entry_ok, entry_of, or_else. simpl.
  destruct (decide (note r = "")) as [Heq | _]; [by destruct Hnote|].
  split; [exact Hst|]. split; [exact Hrule|]. split; reflexivity.
Qed.

Lemma inv_resume (targets : list Target.t) (n k : nat) (w : World) (now : Z)
    (p p' : Pool.t) :
  pool_inv targets n p -> resume targets k w now p = Some p' -> pool_inv targets n p'.
Proof.
  intros [Hws Hcur Haw Hcr Hfin Hcl (busy & Hrep & Hbusy) Hcnt Hren Hset Hent] Hres.
  destruct (resume_cases targets k w now p p' Hres)
    as (idx & t & r & Hk & Hr & Ho & Hcase).
  destruct (entry_of_outcome w r now Ho) as (Hnc & Hok & _ & _).
  pose proof (lookup_lt_Some _ _ _ Hk) as Hklt.
  assert (Hbk : busy !! k = Some idx) by (by rewrite Hbusy, Hk).
  assert (Hstore : forall t0, t0 ∈ targets ->
            exists e, <[Target.url t := entry_of r now]> (Pool.state p) !! Target.url t0 = Some e
                      /\ entry_ok e).
  { intros t0 Ht0. destruct (decide (Target.url t = Target.url t0)) as [Heq | Hne].
    - exists (entry_of r now). rewrite Heq. split; [apply lookup_insert_eq | exact Hok].
    - rewrite lookup_insert_ne by exact Hne. by apply Hent. }
  assert (Hkeep : forall t0, settled p t0 ->
            exists e, <[Target.url t := entry_of r now]> (Pool.state p) !! Target.url t0 = Some e
                      /\ Entry.status e <> CHECKING).
  { intros t0 (e & He & Hne0). destruct (decide (Target.url t = Target.url t0)) as [Heq | Hne].
    - exists (entry_of r now). rewrite Heq. split; [apply lookup_insert_eq | exact Hnc].
    - exists e. by rewrite lookup_insert_ne. }
  assert (Hmine : exists e, <[Target.url t := entry_of r now]> (Pool.state p) !! Target.url t = Some e
                      /\ Entry.status e <> CHECKING).
  { exists (entry_of r now). split; [apply lookup_insert_eq | exact Hnc]. }
  destruct Hcase as [(Hlt & t' & Ht' & ->) | (Hge & ->)]; constructor; pool_simpl.
  - by rewrite length_insert.
  - lia.
  - intros k0 idx0 t0. rewrite lookup_insert_cases by done. case_decide.
    + intros [= <- <-]. split; [lia | exact Ht'].
    + intros Hk0. destruct (Haw k0 idx0 t0 Hk0). split; [lia | done].
  - intros k0 e. rewrite lookup_insert_cases by done.
    case_decide; [discriminate | apply Hcr].
  - intros k0. rewrite lookup_insert_cases by done. case_decide; [discriminate|].
    intros Hk0. specialize (Hfin k0 Hk0). lia.
  - rewrite claims_snoc_claim, claims_snoc_complete, Hcl, seq_S. reflexivity.
  - exists (<[k := Pool.i p]> (delete k busy)). split.
    + apply replay_claim; [by eapply replay_complete | apply lookup_delete_eq].
    + intros k0. rewrite lookup_insert_cases by done. case_decide as Hk0.
      * subst k0. by rewrite lookup_insert_eq.
      * rewrite lookup_insert_ne, lookup_delete_ne by done. apply Hbusy.
  - rewrite completions_snoc_claim, completions_snoc_complete.
    pose proof (awaiting_insert (Pool.workers p) k _ (Awaiting (Pool.i p) t') Hk) as Hins.
    unfold awaiting_bit in Hins. simpl in Hins. lia.
  - rewrite completions_snoc_claim, completions_snoc_complete. by rewrite Hren.
  - intros idx0 t0 Hidx0. destruct (Hset idx0 t0 Hidx0) as [[Hle | (k0 & Hk0)] | Hs].
    + left. destruct (decide (idx0 = Pool.i p)) as [-> | Hne].
      * right. exists k. rewrite list_lookup_insert_eq by done. congruence.
      * left. lia.
    + destruct (decide (k0 = k)) as [-> | Hne].
      * right. rewrite Hk in Hk0. injection Hk0 as <- <-. exact Hmine.
      * left. right. exists k0. by rewrite list_lookup_insert_ne.
    + right. by apply Hkeep.
  - exact Hstore.
  - by rewrite length_insert.
  - done.
  - intros k0 idx0 t0. rewrite lookup_insert_cases by done.
    case_decide; [discriminate | apply Haw].
  - intros k0 e. rewrite lookup_insert_cases by done.
    case_decide; [discriminate | apply Hcr].
  - intros _ _. lia.
  - by rewrite claims_snoc_complete.
  - exists (delete k busy). split; [by eapply replay_complete|].
    intros k0. rewrite lookup_insert_cases by done. case_decide as Hk0.
    + subst k0. by rewrite lookup_delete_eq.
    + rewrite lookup_delete_ne by done. apply Hbusy.
  - rewrite completions_snoc_complete.
    pose proof (awaiting_insert (Pool.workers p) k _ Finished Hk) as Hins.
    unfold awaiting_bit in Hins. simpl in Hins. lia.
  - rewrite completions_snoc_complete. by rewrite Hren.
  - intros idx0 t0 Hidx0. destruct (Hset idx0 t0 Hidx0) as [[Hle | (k0 & Hk0)] | Hs].
    + left. left. lia.
    + destruct (decide (k0 = k)) as [-> | Hne].
      * right. rewrite Hk in Hk0. injection Hk0 as <- <-. exact Hmine.
      * left. right. exists k0. by rewrite list_lookup_insert_ne.
    + right. by apply Hkeep.
  - exact Hstore.
Qed.

Lemma inv_start (targets : list Target.t) (concurrency : nat) (clock : nat -> Z)
    (state0 : gmap string Entry.t) :
  pool_inv targets concurrency (runChecks_start targets concurrency clock state0).
Proof.
  unfold runChecks_start. induction concurrency as [|c IH]; simpl.
  - apply inv_init.
  - by apply inv_spawn.
Qed.

Lemma inv_reachable (targets : list Target.t) (concurrency : nat) (clock : nat -> Z)
    (state0 : gmap string Entry.t) (p : Pool.t) :
  reachable targets concurrency clock state0 p -> pool_inv targets concurrency p.
Proof.
  unfold reachable. revert p. apply rtc_ind_r.
  - apply inv_start.
  - intros q q' _ (k & w & now & Hres) IH. by eapply inv_resume.
Qed.

(** ** Runs of a cycle *)

Lemma run_rtc (targets : list Target.t) (schedule : list (nat * World * Z)) :
  forall p p', run targets schedule p = Some p' -> rtc (step targets) p p'.
Proof.
  induction schedule as [|[[k w] now] rest IH]; intros p p' Hrun; simpl in Hrun.
  - injection Hrun as ->. apply rtc_refl.
  - destruct (resume targets k w now p) as [q|] eqn:Hq; [|discriminate].
    eapply rtc_l; [|by apply IH]. by exists k, w, now.
Qed.

Lemma run_reachable (targets : list Target.t) (concurrency : nat) (clock : nat -> Z)
    (state0 : gmap string Entry.t) (schedule : list (nat * World * Z)) (p : Pool.t) :
  run targets schedule (runChecks_start targets concurrency clock state0) = Some p ->
  reachable targets concurrency clock state0 p.
Proof. apply run_rtc. Qed.

(** Each settled probe adds one completion. *)
Lemma resume_completions (targets : list Target.t) (k : nat) (w : World) (now : Z)
    (p p' : Pool.t) :
  resume targets k w now p = Some p' ->
  completions (Pool.trace p') = S (completions (Pool.trace p)).
Proof.
  intros Hres.
  destruct (resume_cases targets k w now p p' Hres)
    as (idx & t & r & _ & _ & _ & [(_ & t' & _ & ->) | (_ & ->)]); simpl.
  - by rewrite completions_snoc_claim, completions_snoc_complete.
  - by rewrite completions_snoc_complete.
Qed.

Lemma run_completions (targets : list Target.t) (schedule : list (nat * World * Z)) :
  forall p p', run targets schedule p = Some p' ->
    completions (Pool.trace p') = completions (Pool.trace p) + length schedule.
Proof.
  induction schedule as [|[[k w] now] rest IH]; intros p p' Hrun; simpl in Hrun.
  - injection Hrun as ->. simpl. lia.
  - destruct (resume targets k w now p) as [q|] eqn:Hq; [|discriminate].
    rewrite (IH q p' Hrun), (resume_completions _ _ _ _ _ _ Hq). simpl. lia.
Qed.

(** A suspended worker can always be resumed: its probe settles in every
    world. *)
Lemma resume_enabled (targets : list Target.t) (k idx : nat) (t : Target.t)
    (w : World) (now : Z) (p : Pool.t) :
  Pool.workers p !! k = Some (Awaiting idx t) ->
  is_Some (resume targets k w now p).
Proof.
  intros Hk. unfold resume. rewrite Hk.
  destruct (probe w (Target.url t)).1; [|by eexists].
  destruct (loop_head _ _ _). by eexists.
Qed.

Lemma some_not_awaiting (ws : list Worker) :
  length (filter is_awaiting ws) < length ws ->
  exists k wk, ws !! k = Some wk /\ is_awaiting wk = false.
Proof.
  induction ws as [|wk ws IH]; intros Hlt; [simpl in Hlt; lia|].
  rewrite awaiting_cons in Hlt. destruct (is_awaiting wk) eqn:Hwk.
  - unfold awaiting_bit in Hlt. rewrite Hwk in Hlt. simpl in Hlt.
    destruct IH as (k & wk' & Hk & Hwk'); [lia|]. by exists (S k), wk'.
  - by exists 0, wk.
Qed.

Lemma some_awaiting (ws : list Worker) :
  0 < length (filter is_awaiting ws) ->
  exists k idx t, ws !! k = Some (Awaiting idx t).
Proof.
  induction ws as [|wk ws IH]; intros Hlt; [simpl in Hlt; lia|].
  rewrite awaiting_cons in Hlt. destruct wk as [idx t| |e].
  - by exists 0, idx, t.
  - destruct IH as (k & idx & t & Hk); [unfold awaiting_bit in Hlt; simpl in Hlt; lia|].
    by exists (S k), idx, t.
  - destruct IH as (k & idx & t & Hk); [unfold awaiting_bit in Hlt; simpl in Hlt; lia|].
    by exists (S k), idx, t.
Qed.

Section CycleFacts.
Variables (targets : list Target.t) (n : nat) (p : Pool.t).
Hypothesis Hinv : pool_inv targets n p.

Lemma in_flight_le : in_flight p <= n.
Proof.
  rewrite <- (inv_workers _ _ _ Hinv). unfold in_flight. apply length_filter.
Qed.

(** A worker that is not suspended has left its loop, and the cursor is
    at the end. *)
Lemma idle_worker_cursor_end k wk :
  Pool.workers p !! k = Some wk -> is_awaiting wk = false ->
  Pool.i p = length targets.
Proof.
  intros Hk Hwk. destruct wk as [idx t| |e]; [discriminate| |].
  - by apply (inv_finished _ _ _ Hinv k).
  - by destruct (inv_no_crash _ _ _ Hinv k e).
Qed.

Lemma in_flight_min :
  in_flight p = min n (length targets - completions (Pool.trace p)).
Proof.
  pose proof in_flight_le as Hle.
  pose proof (inv_count _ _ _ Hinv) as Hcnt.
  pose proof (inv_cursor _ _ _ Hinv) as Hcur.
  destruct (decide (in_flight p < n)) as [Hlt | Hge].
  - destruct (some_not_awaiting (Pool.workers p)) as (k & wk & Hk & Hwk).
    { rewrite (inv_workers _ _ _ Hinv). exact Hlt. }
    pose proof (idle_worker_cursor_end k wk Hk Hwk). lia.
  - lia.
Qed.

Lemma resolved_iff_none_in_flight : resolved p = true <-> in_flight p = 0.
Proof.
  unfold resolved, in_flight. split.
  - apply all_finished_no_awaiting.
  - intros Hz. apply (no_awaiting_all_finished _ Hz). apply (inv_no_crash _ _ _ Hinv).
Qed.

Lemma resolved_cursor_end : 1 <= n -> resolved p = true -> Pool.i p = length targets.
Proof.
  intros Hn Hres.
  destruct (lookup_lt_is_Some_2 (Pool.workers p) 0) as [wk Hwk].
  { rewrite (inv_workers _ _ _ Hinv). lia. }
  pose proof (all_finished_lookup _ _ _ Hres Hwk) as ->.
  by apply (inv_finished _ _ _ Hinv 0).
Qed.

Lemma resolved_all_settled :
  1 <= n -> resolved p = true -> forall t, t ∈ targets -> settled p t.
Proof.
  intros Hn Hres t Ht.
  apply list_elem_of_lookup in Ht as [idx Hidx].
  destruct (inv_settled _ _ _ Hinv idx t Hidx) as [[Hle | (k & Hk)] | Hs]; [| |exact Hs].
  - pose proof (resolved_cursor_end Hn Hres). apply lookup_lt_Some in Hidx. lia.
  - by pose proof (all_finished_lookup _ _ _ Hres Hk).
Qed.

Lemma all_completed_resolved :
  completions (Pool.trace p) = length targets -> resolved p = true.
Proof.
  intros Hc. apply resolved_iff_none_in_flight.
  pose proof (inv_count _ _ _ Hinv). pose proof (inv_cursor _ _ _ Hinv). lia.
Qed.

Lemma unresolved_can_step :
  resolved p = false ->
  exists k, forall w now, is_Some (resume targets k w now p).
Proof.
  intros Hres.
  destruct (some_awaiting (Pool.workers p)) as (k & idx & t & Hk).
  { destruct (decide (in_flight p = 0)) as [Hz | Hnz]; [|unfold in_flight in *; lia].
    apply resolved_iff_none_in_flight in Hz. congruence. }
  exists k. intros w now. by eapply resume_enabled.
Qed.
End CycleFacts.

Lemma not_checking_cases (s : Status) :
  s <> CHECKING -> s = UP \/ s = UP_OPAQUE \/ s = SLOW \/ s = DOWN.
Proof. destruct s; auto. by intros []. Qed.

Example start5_shape :
  Pool.workers start5
  = [Awaiting 0 (Target.mk "a" "WEBSITE" "https://a/");
     Awaiting 1 (Target.mk "b" "WEBSITE" "https://b/")] /\
  Pool.i start5 = 2 /\ in_flight start5 = 2.
Proof. vm_compute. done. Qed.

Lemma after5_run : run five_targets schedule5 start5 = Some after5.
Proof. vm_compute. reflexivity. Qed.

Example after5_shape :
  resolved after5 = true /\ Pool.i after5 = 5 /\
  Pool.trace after5
  = [Claim 0 0; Claim 1 1;
     Complete 1 1 (mkProbeResult UP (Some (0 + 300 - 0)%Q) "HTTP 200"); Claim 1 2;
     Complete 0 0 (mkProbeResult DOWN (Some (0 + 50 - 0)%Q) "HTTP 500"); Claim 0 3;
     Complete 1 2 (mkProbeResult SLOW (Some (7 + 1000 + 500 - 7)%Q) "CORS blocked details");
     Claim 1 4;
     Complete 1 4 (mkProbeResult DOWN None "timeout");
     Complete 0 3 (mkProbeResult UP (Some (0 + 20 + 30 - 0)%Q) "OK")].
Proof. vm_compute. done. Qed.

(** The pool in which [runChecks] suspends: the store holds the CHECKING
    entries, [render] has run once, no probe has settled. *)
Lemma start_fields (targets : list Target.t) (concurrency : nat) (clock : nat -> Z)
    (state0 : gmap string Entry.t) :
  Pool.state (runChecks_start targets concurrency clock state0)
  = set_all_checking clock 0 targets state0 /\
  Pool.renders (runChecks_start targets concurrency clock state0) = 1 /\
  completions (Pool.trace (runChecks_start targets concurrency clock state0)) = 0.
Proof.
  unfold runChecks_start. induction concurrency as [|c (IH1 & IH2 & IH3)]; [done|].
  simpl Nat.iter.
  destruct (spawn_cases targets
              (Nat.iter c (spawn targets)
                 (Pool.mk 0 [] (set_all_checking clock 0 targets state0) 1 [])))
    as [(_ & t & _ & ->) | (_ & ->)]; simpl.
  - by rewrite completions_snoc_claim.
  - done.
Qed.

(** A pool reached by a schedule is a pool of the cycle, and conversely. *)
Lemma reachable_run (targets : list Target.t) (concurrency : nat) (clock : nat -> Z)
    (state0 : gmap string Entry.t) (p : Pool.t) :
  reachable targets concurrency clock state0 p ->
  exists schedule,
    run targets schedule (runChecks_start targets concurrency clock state0) = Some p.
Proof.
  unfold reachable. revert p. apply rtc_ind_r.
  - by exists [].
  - intros q q' _ (k & w & now & Hres) (schedule & Hrun).
    exists (schedule ++ [(k, w, now)]).
    revert Hrun. generalize (runChecks_start targets concurrency clock state0).
    induction schedule as [|[[k0 w0] now0] rest IH]; intros p0 Hrun; simpl in *.
    + injection Hrun as ->. by rewrite Hres.
    + destruct (resume targets k0 w0 now0 p0) as [p1|]; [by apply IH | discriminate].
Qed.


(** ** The properties of a cycle *)

Lemma outcome_down_latency (w : World) (r : ProbeResult) :
  outcome w r -> status r = DOWN -> (is_Some (latencyMs r) <-> readable_failure w).
Proof.
  intros Ho.
  destruct Ho as [r1 H1 Hok|r1 H1 Hok|e r2 H1 H2 Hty|e r2 H1 H2 Hty|H1|e H1 H2|e H1 H2|e e2 H1 H2 Hne];
    world_facts; simpl; intros Hd.
  - destruct (slow_or_fast_or_slow UP (elapsed1 w)) as [Hs | Hs]; congruence.
  - split; [done | by eexists].
  - destruct (slow_or_fast_or_slow UP_OPAQUE (elapsed2 w)) as [Hs | Hs]; congruence.
  - destruct (slow_or_fast_or_slow UP (elapsed2 w)) as [Hs | Hs]; congruence.
  - split; [by intros [? ?] | done].
  - split; [by intros [? ?] | done].
  - split; [by intros [? ?] | done].
  - split; [by intros [? ?] | done].
Qed.

(** C2: a result returned by the probe has a latency exactly when its status
    is UP, UP_OPAQUE or SLOW, or it is DOWN with an "HTTP <code>" note, which
    is the DOWN of a readable non-ok status; it has none exactly when it is
    DOWN with note "timeout" or "unreachable". The entry written at the
    start of a cycle is CHECKING without latency, and at every moment of a
    cycle the entry stored for each target obeys the same rule. *)
Theorem latency_presence (targets : list Target.t) (concurrency : nat)
    (clock : nat -> Z) (state0 : gmap string Entry.t) :
  (forall (w : World) (url : string), exists r : ProbeResult,
      (probe w url).1 = Normal r /\ status r <> CHECKING /\
      latency_rule (status r) (latencyMs r) (note r) /\
      (status r = DOWN -> (is_Some (latencyMs r) <-> readable_failure w))) /\
  (forall now : Z,
      Entry.status (checking_entry now) = CHECKING /\
      Entry.latencyMs (checking_entry now) = None) /\
  (forall (p : Pool.t) (t : Target.t),
      reachable targets concurrency clock state0 p -> t ∈ targets ->
      exists e : Entry.t, Pool.state p !! Target.url t = Some e /\
        latency_rule (Entry.status e) (Entry.latencyMs e) (Entry.note e)).
Proof.
  split; [|split].
  - intros w url. destruct (probe_outcome w url) as (r & Hr & Ho).
    destruct (outcome_shape w r Ho) as (Hnc & _ & Hrule).
    exists r. split; [exact Hr|]. split; [exact Hnc|]. split; [exact Hrule|].
    by apply outcome_down_latency.
  - intros now. by split.
  - intros p t Hreach Ht.
    apply (inv_entries _ _ _ (inv_reachable _ _ _ _ _ Hreach) t Ht).
Qed.

(** C5: while a cycle runs, [Promise.all] has resolved only if every target
    has a stored entry whose status is UP, UP_OPAQUE, SLOW or DOWN, each
    target's probe having settled once; the entries were all CHECKING when
    the cycle started. A cycle does resolve: it takes exactly one settled
    probe per target, and until then some worker can be resumed. *)
Theorem cycle_completeness (targets : list Target.t) (concurrency : nat)
    (clock : nat -> Z) (state0 : gmap string Entry.t) (p : Pool.t) :
  1 <= concurrency ->
  reachable targets concurrency clock state0 p ->
  (forall t, t ∈ targets -> exists now : Z,
      Pool.state (runChecks_start targets concurrency clock state0) !! Target.url t
      = Some (checking_entry now)) /\
  (resolved p = true ->
     completions (Pool.trace p) = length targets /\
     forall t, t ∈ targets -> exists e : Entry.t,
       Pool.state p !! Target.url t = Some e /\
       (Entry.status e = UP \/ Entry.status e = UP_OPAQUE \/
        Entry.status e = SLOW \/ Entry.status e = DOWN)) /\
  (completions (Pool.trace p) = length targets -> resolved p = true) /\
  (resolved p = false ->
     completions (Pool.trace p) < length targets /\
     exists k, forall w now, is_Some (resume targets k w now p)).
Proof.
  intros Hc Hreach. pose proof (inv_reachable _ _ _ _ _ Hreach) as Hinv.
  split; [|split; [|split]].
  - intros t Ht.
    assert (Hst : Pool.state (runChecks_start targets concurrency clock state0)
                  = set_all_checking clock 0 targets state0).
    { unfold runChecks_start. generalize concurrency as c.
      induction c as [|c IH]; [reflexivity|]. simpl.
      destruct (spawn_cases targets
                  (Nat.iter c (spawn targets)
                     (Pool.mk 0 [] (set_all_checking clock 0 targets state0) 1 [])))
        as [(_ & t' & _ & ->) | (_ & ->)]; exact IH. }
    rewrite Hst.
    destruct (set_all_checking_lookup clock targets 0 state0 (Target.url t)) as [m Hm].
    { left. by exists t. }
    by exists (clock m).
  - intros Hres. split.
    + pose proof (resolved_cursor_end _ _ _ Hinv Hc Hres).
      pose proof (proj1 (resolved_iff_none_in_flight _ _ _ Hinv) Hres).
      pose proof (inv_count _ _ _ Hinv). lia.
    + intros t Ht.
      destruct (resolved_all_settled _ _ _ Hinv Hc Hres t Ht) as (e & He & Hne).
      exists e. split; [exact He | by apply not_checking_cases].
  - by apply (all_completed_resolved _ _ _ Hinv).
  - intros Hres. split; [|by apply (unresolved_can_step _ _ _ Hinv)].
    pose proof (inv_count _ _ _ Hinv). pose proof (inv_cursor _ _ _ Hinv).
    destruct (decide (completions (Pool.trace p) = length targets)) as [Heq | Hne]; [|lia].
    rewrite (all_completed_resolved _ _ _ Hinv Heq) in Hres. discriminate.
Qed.

Lemma cycle_completeness_witness :
  1 <= 2 /\ reachable five_targets 2 noon ∅ after5 /\ resolved after5 = true /\
  forall t, t ∈ five_targets -> exists e : Entry.t,
    Pool.state after5 !! Target.url t = Some e /\
    (Entry.status e = UP \/ Entry.status e = UP_OPAQUE \/
     Entry.status e = SLOW \/ Entry.status e = DOWN).
Proof.
  assert (Hreach : reachable five_targets 2 noon ∅ after5).
  { apply (run_reachable five_targets 2 noon ∅ schedule5). exact after5_run. }
  split; [lia|]. split; [exact Hreach|]. split; [reflexivity|].
  apply (cycle_completeness five_targets 2 noon ∅ after5); [lia | exact Hreach | reflexivity].
Defined.

(** C6: throughout a cycle the pool has exactly [concurrency] workers, each
    suspended in at most one probe, so at most [concurrency] probes are in
    flight; their number is the smaller of [concurrency] and the number of
    targets whose probe has not settled. In the trace no worker takes a
    target while its previous probe is still in flight. *)
Theorem concurrency_bound (targets : list Target.t) (concurrency : nat)
    (clock : nat -> Z) (state0 : gmap string Entry.t) (p : Pool.t) :
  reachable targets concurrency clock state0 p ->
  length (Pool.workers p) = concurrency /\
  in_flight p <= concurrency /\
  in_flight p = min concurrency (length targets - completions (Pool.trace p)) /\
  exists busy : gmap nat nat,
    replay (Pool.trace p) = Some busy /\
    forall k, busy !! k = probing (Pool.workers p !! k).
Proof.
  intros Hreach. pose proof (inv_reachable _ _ _ _ _ Hreach) as Hinv.
  split; [apply (inv_workers _ _ _ Hinv)|].
  split; [apply (in_flight_le _ _ _ Hinv)|].
  split; [apply (in_flight_min _ _ _ Hinv)|].
  apply (inv_replay _ _ _ Hinv).
Qed.

Lemma concurrency_bound_witness :
  reachable five_targets 2 noon ∅ start5 /\
  length (Pool.workers start5) = 2 /\
  in_flight start5 <= 2 /\
  in_flight start5 = min 2 (length five_targets - completions (Pool.trace start5)) /\
  exists busy : gmap nat nat,
    replay (Pool.trace start5) = Some busy /\
    forall k, busy !! k = probing (Pool.workers start5 !! k).
Proof.
  assert (Hreach : reachable five_targets 2 noon ∅ start5) by apply rtc_refl.
  split; [exact Hreach|].
  apply (concurrency_bound five_targets 2 noon ∅ start5 Hreach).
Defined.




(** * The summary of [render] *)

Lemma count_status_one (ss : list (option Status)) (t : Target.t)
    (state : gmap string Entry.t) :
  count_status ss [t] state = if bool_decide (stored_status state t ∈ ss) then 1 else 0.
Proof.
  unfold count_status. rewrite filter_cons, filter_nil.
  case_bool_decide; case_decide; done.
Qed.

(** Deciding membership of a known status in a known list. *)
Ltac decide_buckets :=
  repeat match goal with
         | |- context [bool_decide ?P] =>
             let b := eval vm_compute in (bool_decide P) in
             change (bool_decide P) with b
         end.

Lemma count_target_bucket (state : gmap string Entry.t) (t : Target.t) (up down checking : nat) :
  count_target state (up, down, checking) t =
    (up + count_status [Some UP; Some UP_OPAQUE] [t] state,
     down + count_status [Some DOWN] [t] state,
     checking + count_status [None; Some CHECKING; Some SLOW] [t] state).
Proof.
  rewrite !count_status_one. unfold count_target, stored_status.
  destruct (state !! Target.url t) as [s|]; simpl; [destruct (Entry.status s)|];
    decide_buckets; f_equal; try f_equal; lia.
Qed.

Lemma count_status_cons (ss : list (option Status)) (t : Target.t) (ts : list Target.t)
    (state : gmap string Entry.t) :
  count_status ss (t :: ts) state = count_status ss [t] state + count_status ss ts state.
Proof.
  unfold count_status. change (t :: ts) with ([t] ++ ts).
  by rewrite filter_app, length_app.
Qed.

Lemma summary_from (state : gmap string Entry.t) (targets : list Target.t) :
  forall up down checking,
    foldl (count_target state) (up, down, checking) targets =
      (up + count_status [Some UP; Some UP_OPAQUE] targets state,
       down + count_status [Some DOWN] targets state,
       checking + count_status [None; Some CHECKING; Some SLOW] targets state).
Proof.
  induction targets as [|t ts IH]; intros up down checking.
  - unfold count_status. simpl. f_equal; [f_equal|]; lia.
  - change (foldl (count_target state) (up, down, checking) (t :: ts))
      with (foldl (count_target state) (count_target state (up, down, checking) t) ts).
    rewrite count_target_bucket, IH.
    rewrite !(count_status_cons _ t ts). f_equal; [f_equal|]; lia.
Qed.

(** C10: the up count is the number of targets stored as UP or UP_OPAQUE,
    the down count the number stored as DOWN, and the checking count the
    number of all others: no entry, CHECKING, or SLOW. The three counts add
    up to the number of targets, and a target stored as SLOW adds one to
    checking and nothing to up. *)
Theorem summary_counts (targets : list Target.t) (state : gmap string Entry.t) :
  summary targets state =
    (count_status [Some UP; Some UP_OPAQUE] targets state,
     count_status [Some DOWN] targets state,
     count_status [None; Some CHECKING; Some SLOW] targets state) /\
  count_status [Some UP; Some UP_OPAQUE] targets state
  + count_status [Some DOWN] targets state
  + count_status [None; Some CHECKING; Some SLOW] targets state = length targets /\
  forall (t : Target.t) (s : Entry.t) (up down checking : nat),
    state !! Target.url t = Some s -> Entry.status s = SLOW ->
    count_target state (up, down, checking) t = (up, down, S checking).
Proof.
  split; [|split].
  - unfold summary. by rewrite summary_from.
  - induction targets as [|t ts IH]; [reflexivity|].
    rewrite !(count_status_cons _ t ts). simpl length.
    assert (count_status [Some UP; Some UP_OPAQUE] [t] state
            + count_status [Some DOWN] [t] state
            + count_status [None; Some CHECKING; Some SLOW] [t] state = 1) as H1.
    { rewrite !count_status_one. unfold stored_status.
      destruct (state !! Target.url t) as [s|]; simpl; [destruct (Entry.status s)|];
        decide_buckets; reflexivity. }
    lia.
  - intros t s up down checking Hs Hslow. unfold count_target. by rewrite Hs, Hslow.
Qed.

Example summary_after5 : summary five_targets (Pool.state after5) = (2, 2, 1).
Proof. vm_compute. reflexivity. Qed.

(** * The periodic timer *)

Lemma jitter_range (r : Q) : (0 <= r)%Q -> (r < 1)%Q -> (0 <= jitter r < 1500)%Z.
Proof.
  intros H0 H1. unfold jitter. split.
  - change 0%Z with (Qfloor 0). apply Qfloor_resp_le.
    apply Qmult_le_0_compat; [exact H0 | discriminate].
  - rewrite Zlt_Qlt. eapply Qle_lt_trans; [apply Qfloor_le|].
    change (inject_Z 1500) with (1 * 1500)%Q.
    apply Qmult_lt_compat_r; [reflexivity | exact H1].
Qed.

Lemma fire_main (rand : nat -> Q) (n : nat) :
  after_firings rand n =
    Sched.mk 1 (Some (REFRESH_EVERY_MS + jitter (rand 0%nat))%Z) (S n)
      (replicate n (REFRESH_EVERY_MS + jitter (rand 0%nat))%Z).
Proof.
  unfold after_firings. induction n as [|n IH]; [reflexivity|].
  simpl Nat.iter. rewrite IH. unfold fire. simpl. f_equal.
  clear IH. induction n as [|n IH]; [reflexivity|]. simpl. by rewrite IH.
Qed.

(** C8, as the specification words it, fails: the jitter is drawn once. With
    [Math.random()] returning 0.5 and then 0, both of the first two periodic
    firings come 120750 ms after the previous one, no second value is ever
    drawn, and a jitter drawn afresh would have made the second wait
    120000 ms. *)
Lemma jitter_is_drawn_once :
  Sched.delays (after_firings rand_half_then_zero 2) = [120750; 120750]%Z /\
  Sched.samples (after_firings rand_half_then_zero 2) = 1 /\
  (REFRESH_EVERY_MS + jitter (rand_half_then_zero 1))%Z = 120000%Z.
Proof. vm_compute. done. Qed.

(** C8 (amended): one cycle runs at startup; every periodic firing then comes
    [REFRESH_EVERY_MS] plus a jitter in [0, 1500) ms after the previous one,
    where the jitter is drawn once, when the timer is registered, and is the
    same for all firings. *)
Theorem periodic_delay_fixed (rand : nat -> Q) (n : nat) :
  (0 <= rand 0%nat)%Q -> (rand 0%nat < 1)%Q ->
  Sched.cycles (main rand) = 1 /\
  Sched.cycles (after_firings rand n) = S n /\
  Sched.samples (after_firings rand n) = 1 /\
  Sched.delays (after_firings rand n)
  = replicate n (REFRESH_EVERY_MS + jitter (rand 0%nat))%Z /\
  (0 <= jitter (rand 0%nat) < 1500)%Z.
Proof.
  intros H0 H1. rewrite fire_main. simpl.
  split; [reflexivity|]. split; [reflexivity|]. split; [reflexivity|].
  split; [reflexivity|]. by apply jitter_range.
Qed.

Lemma periodic_delay_fixed_witness :
  (0 <= rand_half_then_zero 0%nat)%Q /\ (rand_half_then_zero 0%nat < 1)%Q /\
  Sched.cycles (main rand_half_then_zero) = 1 /\
  Sched.cycles (after_firings rand_half_then_zero 3) = 4 /\
  Sched.samples (after_firings rand_half_then_zero 3) = 1 /\
  Sched.delays (after_firings rand_half_then_zero 3)
  = replicate 3 (REFRESH_EVERY_MS + jitter (rand_half_then_zero 0%nat))%Z /\
  (0 <= jitter (rand_half_then_zero 0%nat) < 1500)%Z.
Proof.
  split; [by vm_compute|]. split; [by vm_compute|].
  apply (periodic_delay_fixed rand_half_then_zero 3); by vm_compute.
Defined.

(** * Properties of [escapeHtml] *)

Section Strings.
Implicit Types (a b c : string).

Lemma append_cons (x : Ascii.ascii) a b : String x a +:+ b = String x (a +:+ b).
Proof. reflexivity. Qed.

Lemma append_nil_l a : EmptyString +:+ a = a.
Proof. reflexivity. Qed.

Lemma append_assoc a b c : (a +:+ b) +:+ c = a +:+ (b +:+ c).
Proof. induction a as [|x a IH]; [reflexivity|]. by rewrite !append_cons, IH. Qed.

Lemma append_nil_r a : a +:+ EmptyString = a.
Proof. induction a as [|x a IH]; [reflexivity|]. by rewrite append_cons, IH. Qed.

Lemma length_append a b : String.length (a +:+ b) = String.length a + String.length b.
Proof. induction a as [|x a IH]; [reflexivity|]. rewrite append_cons. simpl. by rewrite IH. Qed.

Lemma append_inv_head a b c : a +:+ b = a +:+ c -> b = c.
Proof. induction a as [|x a IH]; [done|]. rewrite !append_cons. intros [= H]. by apply IH. Qed.

Lemma count_char_app (x : Ascii.ascii) a b :
count_char x (a +:+ b) = count_char x a + count_char x b.
Proof.
induction a as [|y a IH]; [reflexivity|]. rewrite append_cons. simpl. rewrite IH. lia.
Qed.
End Strings.

(** Pushing a function through a text that starts with known characters. *)
Ltac str_step :=
  repeat (rewrite ?append_cons, ?append_nil_l; cbn [replaceAll count_char String.length];
          simpl Ascii.eqb).

Lemma replaceAll_app (pat : Ascii.ascii) (rep a b : string) :
  replaceAll pat rep (a +:+ b) = replaceAll pat rep a +:+ replaceAll pat rep b.
Proof.
  induction a as [|c a IH]; [reflexivity|]. rewrite append_cons. cbn [replaceAll].
  destruct (Ascii.eqb c pat); rewrite IH; [|reflexivity].
  symmetry. apply append_assoc.
Qed.

Lemma escapeHtml_cons (c : Ascii.ascii) (s : string) :
  escapeHtml (String c s) = escape_char c +:+ escapeHtml s.
Proof.
  unfold escapeHtml, escape_char. cbn [replaceAll].
  destruct (Ascii.eqb c "&") eqn:E1; [by str_step|]. cbn [replaceAll].
  destruct (Ascii.eqb c "<") eqn:E2; [by str_step|]. cbn [replaceAll].
  destruct (Ascii.eqb c ">") eqn:E3; [by str_step|]. cbn [replaceAll].
  destruct (Ascii.eqb c dq_char) eqn:E4; [by str_step|]. cbn [replaceAll].
  destruct (Ascii.eqb c "'") eqn:E5; by str_step.
Qed.

Lemma escape_each_app (a b : string) :
  escape_each (a +:+ b) = escape_each a +:+ escape_each b.
Proof.
  induction a as [|c a IH]; [reflexivity|].
  rewrite append_cons. cbn [escape_each]. by rewrite IH, append_assoc.
Qed.

Lemma escapeHtml_escape_each (s : string) : escapeHtml s = escape_each s.
Proof.
  induction s as [|c s IH]; [reflexivity|].
  rewrite escapeHtml_cons. cbn [escape_each]. by rewrite IH.
Qed.

(** X1: the five [replaceAll] passes do not disturb one another: the result
    is the text in which each character has been replaced by its own
    entity, or kept; in particular the [&] of an entity that a pass inserts
    is never escaped again. Escaping therefore distributes over
    concatenation. *)
Theorem escapeHtml_char_by_char (a b : string) :
  escapeHtml a = escape_each a /\
  escapeHtml (a +:+ b) = escapeHtml a +:+ escapeHtml b.
Proof.
  split; [apply escapeHtml_escape_each|].
  rewrite !escapeHtml_escape_each. apply escape_each_app.
Qed.

(** The six ways a character is treated. *)
Lemma escape_char_cases (c : Ascii.ascii) :
  (c = "&"%char /\ escape_char c = "&amp;") \/
  (c = "<"%char /\ escape_char c = "&lt;") \/
  (c = ">"%char /\ escape_char c = "&gt;") \/
  (c = dq_char /\ escape_char c = "&quot;") \/
  (c = "'"%char /\ escape_char c = "&#039;") \/
  (escape_char c = String c EmptyString /\
   c <> "&"%char /\ c <> "<"%char /\ c <> ">"%char /\ c <> dq_char /\ c <> "'"%char).
Proof.
  unfold escape_char.
  destruct (Ascii.eqb_spec c "&") as [-> | N1]; [by left|]. right.
  destruct (Ascii.eqb_spec c "<") as [-> | N2]; [by left|]. right.
  destruct (Ascii.eqb_spec c ">") as [-> | N3]; [by left|]. right.
  destruct (Ascii.eqb_spec c dq_char) as [-> | N4]; [by left|]. right.
  destruct (Ascii.eqb_spec c "'") as [-> | N5]; [by left|]. right.
  done.
Qed.

Lemma count_char_single (x c : Ascii.ascii) :
  c <> x -> count_char x (String c EmptyString) = 0.
Proof.
  intros Hne. cbn [count_char].
  destruct (Ascii.eqb_spec c x) as [-> | _]; [by destruct Hne | reflexivity].
Qed.

Lemma count_char_hit (x : Ascii.ascii) (s : string) :
  count_char x (String x s) = S (count_char x s).
Proof. cbn [count_char]. by rewrite Ascii.eqb_refl. Qed.

Lemma count_char_miss (x c : Ascii.ascii) (s : string) :
  c <> x -> count_char x (String c s) = count_char x s.
Proof.
  intros Hne. cbn [count_char].
  destruct (Ascii.eqb_spec c x) as [-> | _]; [by destruct Hne | reflexivity].
Qed.

(** X2: the escaped text contains none of the characters that open or close
    a tag or an attribute value. *)
Theorem escapeHtml_no_markup (s : string) :
  count_char "<" (escapeHtml s) = 0 /\
  count_char ">" (escapeHtml s) = 0 /\
  count_char dq_char (escapeHtml s) = 0 /\
  count_char "'" (escapeHtml s) = 0.
Proof.
  rewrite escapeHtml_escape_each.
  induction s as [|c s (IH1 & IH2 & IH3 & IH4)]; [done|].
  cbn [escape_each]. rewrite !count_char_app, IH1, IH2, IH3, IH4.
  destruct (escape_char_cases c)
    as [[-> ->] | [[-> ->] | [[-> ->] | [[-> ->] | [[-> ->] | (-> & N1 & N2 & N3 & N4 & N5)]]]]];
    try by vm_compute.
  by rewrite !count_char_single.
Qed.

(** X3: the escaped text is longer than the original by 4 for each [&], 3
    for each [<] and [>], and 5 for each double or single quote; it is the
    original exactly when the original has none of the five characters. *)
Theorem escapeHtml_length (s : string) :
  String.length (escapeHtml s)
  = String.length s + 4 * count_char "&" s + 3 * count_char "<" s
    + 3 * count_char ">" s + 5 * count_char dq_char s + 5 * count_char "'" s /\
  (escapeHtml s = s <->
   count_char "&" s = 0 /\ count_char "<" s = 0 /\ count_char ">" s = 0 /\
   count_char dq_char s = 0 /\ count_char "'" s = 0).
Proof.
  assert (Hlen : String.length (escapeHtml s)
    = String.length s + 4 * count_char "&" s + 3 * count_char "<" s
      + 3 * count_char ">" s + 5 * count_char dq_char s + 5 * count_char "'" s).
  { rewrite escapeHtml_escape_each. induction s as [|c s IH]; [reflexivity|].
    cbn [escape_each]. rewrite length_append, IH. cbn [String.length].
    destruct (escape_char_cases c)
      as [[-> ->] | [[-> ->] | [[-> ->] | [[-> ->] | [[-> ->] | (-> & N1 & N2 & N3 & N4 & N5)]]]]].
    - rewrite count_char_hit, !count_char_miss by done. simpl String.length. lia.
    - rewrite count_char_hit, !count_char_miss by done. simpl String.length. lia.
    - rewrite count_char_hit, !count_char_miss by done. simpl String.length. lia.
    - rewrite count_char_hit, !count_char_miss by done. simpl String.length. lia.
    - rewrite count_char_hit, !count_char_miss by done. simpl String.length. lia.
    - rewrite !count_char_miss by done. simpl String.length. lia. }
  split; [exact Hlen|]. split.
  - intros Heq. rewrite Heq in Hlen. lia.
  - rewrite escapeHtml_escape_each. clear Hlen.
    induction s as [|c s IH]; [done|]. intros (H1 & H2 & H3 & H4 & H5).
    cbn [escape_each].
    destruct (escape_char_cases c)
      as [[-> _] | [[-> _] | [[-> _] | [[-> _] | [[-> _] | (-> & N1 & N2 & N3 & N4 & N5)]]]]];
      try (rewrite count_char_hit in *; discriminate).
    rewrite !count_char_miss in * by done. rewrite append_cons, append_nil_l.
    f_equal. by apply IH.
Qed.

(** X4: different texts have different escaped texts. *)
Theorem escapeHtml_injective (s1 s2 : string) :
  escapeHtml s1 = escapeHtml s2 -> s1 = s2.
Proof.
  rewrite !escapeHtml_escape_each. revert s2.
  induction s1 as [|c1 s1 IH]; intros [|c2 s2] H; cbn [escape_each] in H.
  - reflexivity.
  - exfalso.
    destruct (escape_char_cases c2)
      as [[-> E] | [[-> E] | [[-> E] | [[-> E] | [[-> E] | (E & _)]]]]];
      rewrite E, ?append_cons in H; discriminate.
  - exfalso.
    destruct (escape_char_cases c1)
      as [[-> E] | [[-> E] | [[-> E] | [[-> E] | [[-> E] | (E & _)]]]]];
      rewrite E, ?append_cons in H; discriminate.
  - destruct (escape_char_cases c1)
      as [[-> E1] | [[-> E1] | [[-> E1] | [[-> E1] | [[-> E1] | (E1 & M1 & _)]]]]];
    destruct (escape_char_cases c2)
      as [[-> E2] | [[-> E2] | [[-> E2] | [[-> E2] | [[-> E2] | (E2 & M2 & _)]]]]];
      rewrite ?E1, ?E2, ?append_cons, ?append_nil_l in H;
      try discriminate; simplify_eq; try (f_equal; by apply IH).
Qed.

Lemma escapeHtml_injective_witness :
  escapeHtml "a<b & c" = escapeHtml "a<b & c" /\ "a<b & c" = "a<b & c".
Proof.
  split; [reflexivity|].
  apply (escapeHtml_injective "a<b & c" "a<b & c"). reflexivity.
Defined.

Example escapeHtml_hostile :
  escapeHtml (Target.name hostile_target)
  = "&lt;script&gt;alert(&#039;x&#039;)&lt;/script&gt;".
Proof. by vm_compute. Qed.

(** * Properties of the rows *)

(** X5: the class and the label of a row agree. Two statuses get the same
    class exactly when they are equal or are UP and UP_OPAQUE, which a row
    shows alike; and rows with the same label have the same class, whatever
    the notes. *)
Theorem label_and_class_agree (s1 s2 : Status) (n1 n2 : string) :
  (statusToClass s1 = statusToClass s2 <->
     s1 = s2 \/ ((s1 = UP \/ s1 = UP_OPAQUE) /\ (s2 = UP \/ s2 = UP_OPAQUE))) /\
  (statusToLabel s1 n1 = statusToLabel s2 n2 -> statusToClass s1 = statusToClass s2) /\
  statusToLabel UP n1 = statusToLabel UP_OPAQUE n2.
Proof.
  split; [|split; [|reflexivity]].
  - split.
    + destruct s1, s2; simpl; intros H; try discriminate; auto.
    + intros [-> | [[-> | ->] [-> | ->]]]; reflexivity.
  - destruct s1, s2; simpl; try reflexivity; try discriminate;
      destruct (decide (n1 = "")); destruct (decide (n2 = ""));
      rewrite ?append_cons; discriminate.
Qed.

Section CountClass.
Variables (state : gmap string Entry.t).

Lemma count_class_cons (cls : string) (t : Target.t) (ts : list Target.t) :
count_class cls (t :: ts) state = count_class cls [t] state + count_class cls ts state.
Proof.
unfold count_class. change (t :: ts) with ([t] ++ ts).
by rewrite filter_app, length_app.
Qed.

Lemma count_class_one (cls : string) (t : Target.t) :
count_class cls [t] state = if bool_decide (row_class state t = cls) then 1 else 0.
Proof.
unfold count_class. rewrite filter_cons, filter_nil.
case_bool_decide; case_decide; done.
Qed.

(** How one target is counted by the summary and by the classes. *)
Lemma one_target_counts (t : Target.t) :
count_status [Some UP; Some UP_OPAQUE] [t] state = count_class "state-ok" [t] state /\
count_status [Some DOWN] [t] state = count_class "state-bad" [t] state /\
count_status [None; Some CHECKING; Some SLOW] [t] state
= count_class "state-check" [t] state + count_class "state-warn" [t] state.
Proof.
rewrite !count_status_one, !count_class_one. unfold stored_status, row_class.
destruct (state !! Target.url t) as [s|]; simpl; [destruct (Entry.status s)|];
  decide_buckets; done.
Qed.
End CountClass.

(** X6: the summary line counts the rows by colour, except that it has no
    count for the SLOW rows: "up" is the number of rows of class state-ok,
    "down" the number of class state-bad, and "checking" the number of
    class state-check plus the number of class state-warn. *)
Theorem summary_counts_rows (targets : list Target.t) (state : gmap string Entry.t) :
  summary targets state =
    (count_class "state-ok" targets state,
     count_class "state-bad" targets state,
     count_class "state-check" targets state + count_class "state-warn" targets state).
Proof.
  unfold summary. rewrite summary_from. simpl.
  induction targets as [|t ts IH]; [reflexivity|].
  rewrite !(count_status_cons _ t ts), !(count_class_cons _ _ t ts).
  destruct (one_target_counts state t) as (-> & -> & ->).
  injection IH as H1 H2 H3. rewrite H1, H2, H3. f_equal. lia.
Qed.

Lemma statusToClass_no_markup (s : Status) :
  count_char "<" (statusToClass s) = 0 /\ count_char ">" (statusToClass s) = 0 /\
  count_char dq_char (statusToClass s) = 0 /\ count_char "'" (statusToClass s) = 0.
Proof. destruct s; by vm_compute. Qed.

Lemma row_piece_counts :
  count_char "<" <$> row_pieces = [1; 2; 2; 0; 3; 0; 5; 5; 4; 4] /\
  count_char ">" <$> row_pieces = [0; 3; 1; 1; 2; 1; 5; 5; 4; 4] /\
  count_char dq_char <$> row_pieces = [1; 5; 3; 1; 3; 1; 8; 4; 2; 0] /\
  count_char "'" <$> row_pieces = [0; 0; 0; 0; 0; 0; 0; 0; 0; 0].
Proof. by vm_compute. Qed.

(** Counting a character in a filled template. *)
Lemma count_char_template (x : Ascii.ascii) (pieces holes : list string) :
  length pieces = S (length holes) ->
  count_char x (template pieces holes)
  = sum_list (count_char x <$> pieces) + sum_list (count_char x <$> holes).
Proof.
  revert holes. induction pieces as [|p ps IH]; intros holes Hlen; [done|].
  destruct holes as [|h hs].
  - destruct ps; [|done]. unfold sum_list. simpl. lia.
  - cbn [template]. rewrite !count_char_app, IH by (simpl in Hlen; lia).
    rewrite !fmap_cons. unfold sum_list. simpl. lia.
Qed.

Lemma row_holes_no_markup (toLocaleString : Z -> string) (t : Target.t)
    (o : option Entry.t) (x : Ascii.ascii) :
  x = "<"%char \/ x = ">"%char \/ x = dq_char \/ x = "'"%char ->
  sum_list (count_char x <$> row_holes toLocaleString t o) = 0.
Proof.
  intros Hx. unfold row_holes. cbn [fmap list_fmap sum_list sum_list_with].
  destruct (statusToClass_no_markup (shown_status o)) as (C1 & C2 & C3 & C4).
  assert (Hesc : forall s, count_char x (escapeHtml s) = 0).
  { intros s. destruct (escapeHtml_no_markup s) as (E1 & E2 & E3 & E4).
    destruct Hx as [-> | [-> | [-> | ->]]]; assumption. }
  rewrite !Hesc.
  destruct Hx as [-> | [-> | [-> | ->]]]; [rewrite C1 | rewrite C2 | rewrite C3 | rewrite C4];
    reflexivity.
Qed.

Lemma render_items_cons (toLocaleString : Z -> string) (t : Target.t)
    (ts : list Target.t) (state : gmap string Entry.t) :
  render_items toLocaleString (t :: ts) state
  = row toLocaleString state t +:+ render_items toLocaleString ts state.
Proof. reflexivity. Qed.

(** X7: whatever the names, kinds and urls of the targets, the stored notes
    and the locale's date format contain, the HTML of a row has exactly the
    markup of the template: 26 [<], 26 [>], 28 double quotes and no single
    quote; the whole list has that many per target. Nothing shown in a row
    can open a tag or leave an attribute value. *)
Theorem rows_keep_template_markup (toLocaleString : Z -> string)
    (targets : list Target.t) (state : gmap string Entry.t) :
  (forall t : Target.t,
     count_char "<" (row toLocaleString state t) = 26 /\
     count_char ">" (row toLocaleString state t) = 26 /\
     count_char dq_char (row toLocaleString state t) = 28 /\
     count_char "'" (row toLocaleString state t) = 0) /\
  count_char "<" (render_items toLocaleString targets state) = 26 * length targets /\
  count_char ">" (render_items toLocaleString targets state) = 26 * length targets /\
  count_char dq_char (render_items toLocaleString targets state) = 28 * length targets /\
  count_char "'" (render_items toLocaleString targets state) = 0.
Proof.
  assert (Hrow : forall t : Target.t,
     count_char "<" (row toLocaleString state t) = 26 /\
     count_char ">" (row toLocaleString state t) = 26 /\
     count_char dq_char (row toLocaleString state t) = 28 /\
     count_char "'" (row toLocaleString state t) = 0).
  { intros t. unfold row.
    destruct row_piece_counts as (P1 & P2 & P3 & P4).
    rewrite !count_char_template by reflexivity.
    rewrite !row_holes_no_markup by auto.
    rewrite P1, P2, P3, P4. by vm_compute. }
  split; [exact Hrow|].
  induction targets as [|t ts (IH1 & IH2 & IH3 & IH4)]; [done|].
  destruct (Hrow t) as (R1 & R2 & R3 & R4).
  rewrite !render_items_cons, !count_char_app.
  rewrite IH1, IH2, IH3, IH4, R1, R2, R3, R4. simpl length. lia.
Qed.

Example hostile_row_is_inert :
  count_char "<" (row locale_iso ∅ hostile_target) = 26.
Proof. by vm_compute. Qed.

(** * What a row shows of a probe *)

Lemma slow_or_is_slow (fast : Status) (ms : Q) :
  fast <> SLOW -> slow_or fast ms = SLOW -> (1200 < ms)%Q.
Proof.
  intros Hf Hs. destruct (slow_or_cases fast ms) as [[_ E] | [Hgt _]]; [|exact Hgt].
  rewrite E in Hs. by destruct Hf.
Qed.

Lemma slow_or_is_fast (fast : Status) (ms : Q) :
  fast <> SLOW -> slow_or fast ms <> SLOW -> (ms <= 1200)%Q.
Proof.
  intros Hf Hs. destruct (slow_or_cases fast ms) as [[Hle _] | [_ E]]; [exact Hle|].
  by destruct Hs.
Qed.

Lemma Math_round_above (ms : Q) : (1200 < ms)%Q -> (1200 <= Math_round ms)%Z.
Proof.
  intros H. unfold Math_round. change 1200%Z with (Qfloor 1200).
  apply Qfloor_resp_le. apply Qlt_le_weak in H.
  eapply Qle_trans; [exact H|].
  rewrite <- (Qplus_0_r ms) at 1. apply Qplus_le_r. discriminate.
Qed.

Lemma Math_round_below (ms : Q) : (ms <= 1200)%Q -> (Math_round ms <= 1200)%Z.
Proof.
  intros H. unfold Math_round. change 1200%Z with (Qfloor (1200 + (1 # 2))).
  apply Qfloor_resp_le. by apply Qplus_le_l.
Qed.

Lemma ms_suffix_not_dash (x : string) : x +:+ "ms" <> dash.
Proof.
  unfold dash. destruct x as [|a [|b [|c x]]]; rewrite ?append_cons, ?append_nil_l;
    try discriminate.
  destruct x; rewrite ?append_cons, ?append_nil_l; discriminate.
Qed.

Lemma fmtLatency_dash (l : option Q) : fmtLatency l = dash <-> l = None.
Proof.
  destruct l as [ms|]; simpl; [|done].
  split; [|discriminate]. intros H. by destruct (ms_suffix_not_dash _ H).
Qed.

(** X8: the RTT of a row is a dash exactly when the result has no latency;
    otherwise it is the latency rounded to whole milliseconds, and the
    rounding stays on the right side of the threshold: a SLOW result never
    shows less than 1200ms, an UP or UP_OPAQUE one never more. *)
Theorem shown_rtt_respects_threshold (w : World) (url : string) :
  exists r : ProbeResult,
    (probe w url).1 = Normal r /\
    (fmtLatency (latencyMs r) = dash <-> latencyMs r = None) /\
    forall ms : Q, latencyMs r = Some ms ->
      fmtLatency (latencyMs r) = pretty (Math_round ms) +:+ "ms" /\
      (status r = SLOW -> (1200 <= Math_round ms)%Z) /\
      (status r = UP \/ status r = UP_OPAQUE -> (Math_round ms <= 1200)%Z).
Proof.
  destruct (probe_outcome w url) as (r & Hr & Ho). exists r.
  split; [exact Hr|]. split; [apply fmtLatency_dash|].
  intros ms Hms. rewrite Hms. split; [reflexivity|].
  destruct Ho as [r1 H1 Hok|r1 H1 Hok|e r2 H1 H2 Hty|e r2 H1 H2 Hty|H1|e H1 H2|e H1 H2|e e2 H1 H2 Hne];
    simpl in *; try discriminate; injection Hms as <-.
  - split; [intros Hs; apply Math_round_above; by apply (slow_or_is_slow UP)|].
    intros [Hs | Hs]; apply Math_round_below; apply (slow_or_is_fast UP); congruence.
  - split; [discriminate | intros [? | ?]; discriminate].
  - split; [intros Hs; apply Math_round_above; by apply (slow_or_is_slow UP_OPAQUE)|].
    intros [Hs | Hs]; apply Math_round_below; apply (slow_or_is_fast UP_OPAQUE); congruence.
  - split; [intros Hs; apply Math_round_above; by apply (slow_or_is_slow UP)|].
    intros [Hs | Hs]; apply Math_round_below; apply (slow_or_is_fast UP); congruence.
Qed.

(** A target that answers after 1200.4 ms is SLOW and shows "1200ms". *)
Example slow_row_showing_1200 :
  let w := mkWorld 0 (NetResolve (resp true 200 Cors)) (12004 # 10) NetDeadline 0 in
  exists r, (probe w "u").1 = Normal r /\ status r = SLOW /\
            fmtLatency (latencyMs r) = "1200ms".
Proof. eexists. split; [by vm_compute|]. split; by vm_compute. Qed.

(** X9: throughout a cycle a target stored as DOWN has a note, "timeout",
    "unreachable" or "HTTP <code>", so its row reads "DOWN (<note>)" and
    never the bare "DOWN". *)
Theorem down_rows_tell_why (targets : list Target.t) (concurrency : nat)
    (clock : nat -> Z) (state0 : gmap string Entry.t) (p : Pool.t)
    (t : Target.t) (e : Entry.t) :
  reachable targets concurrency clock state0 p -> t ∈ targets ->
  Pool.state p !! Target.url t = Some e -> Entry.status e = DOWN ->
  statusToLabel (Entry.status e) (Entry.note e) = "DOWN (" +:+ Entry.note e +:+ ")" /\
  (Entry.note e = "timeout" \/ Entry.note e = "unreachable" \/
   exists code : N, Entry.note e = http_note code).
Proof.
  intros Hreach Ht He Hd.
  destruct (inv_entries _ _ _ (inv_reachable _ _ _ _ _ Hreach) t Ht) as (e' & He' & Hok).
  rewrite He in He'. injection He' as <-.
  destruct Hok as [Hsome Hnone]. rewrite Hd in *.
  assert (Hnote : Entry.note e = "timeout" \/ Entry.note e = "unreachable" \/
                  exists code : N, Entry.note e = http_note code).
  { destruct (Entry.latencyMs e) as [ms|].
    - assert (Hi : is_Some (Some ms)) by (by exists ms).
      destruct (proj1 Hsome Hi) as [[Hs | [Hs | Hs]] | [_ Hc]]; try discriminate; auto.
    - destruct (proj1 Hnone eq_refl) as [Hs | [_ [Hn | Hn]]]; try discriminate; auto. }
  split; [|exact Hnote]. simpl.
  destruct (decide (Entry.note e = "")) as [Hempty | _]; [|reflexivity].
  rewrite Hempty in Hnote.
  destruct Hnote as [Hn | [Hn | [code Hn]]];
    first [discriminate | by destruct (http_note_not_timeout code) as (_ & _ & Hc)].
Qed.

Lemma down_rows_tell_why_witness :
  reachable five_targets 2 noon ∅ after5 /\
  Target.mk "a" "WEBSITE" "https://a/" ∈ five_targets /\
  statusToLabel DOWN "HTTP 500" = "DOWN (HTTP 500)" /\
  ("HTTP 500" = "timeout" \/ "HTTP 500" = "unreachable" \/
   exists code : N, "HTTP 500" = http_note code).
Proof.
  assert (Hreach : reachable five_targets 2 noon ∅ after5).
  { apply (run_reachable five_targets 2 noon ∅ schedule5). exact after5_run. }
  assert (Hin : Target.mk "a" "WEBSITE" "https://a/" ∈ five_targets)
    by apply list_elem_of_here.
  split; [exact Hreach|]. split; [exact Hin|].
  apply (down_rows_tell_why five_targets 2 noon ∅ after5
           (Target.mk "a" "WEBSITE" "https://a/")
           (Entry.mk DOWN (Some (0 + 50 - 0)%Q) 1700000000320 "HTTP 500") Hreach Hin);
    by vm_compute.
Defined.

(** * More about the probe *)

(** X10: a probe never leaves its timer armed, and it calls [fetch] once
    when the first request resolves and twice otherwise, never more: first
    in the default mode, then in no-cors mode, both for the same url. *)
Theorem probe_footprint (w : World) (url : string) :
  timer_armed (probe w url).2 = false /\
  ((exists r, phase1 w = NetResolve r) ->
     fetches (probe w url).2 = [first_call url] /\ requests (probe w url).2 = 1) /\
  ((forall r, phase1 w <> NetResolve r) ->
     (exists b : bool, fetches (probe w url).2 = [first_call url; second_call url b]) /\
     requests (probe w url).2 <= 2).
Proof.
  unfold first_call, second_call.
  destruct (phase1 w) as [r|e|] eqn:H1.
  - run_probe. rewrite H1. simpl. destruct (res_ok r); simpl.
    + split; [done|]. split; [done|]. intros Hn. by destruct (Hn r).
    + split; [done|]. split; [done|]. intros Hn. by destruct (Hn r).
  - destruct (phase2 w) as [r2|e2|] eqn:H2; run_probe; rewrite H1; simpl; rewrite H2; simpl.
    + destruct (bool_decide (res_type r2 = Opaque)); simpl;
        (split; [done|]); (split; [by intros [? ?]|]); intros _; (split; [by exists false | lia]).
    + destruct e2 as [| |n]; simpl;
        (split; [done|]); (split; [by intros [? ?]|]); intros _; (split; [by exists false | lia]).
    + split; [done|]. split; [by intros [? ?]|]. intros _. split; [by exists false | lia].
  - rewrite (probe_deadline w url H1). simpl.
    split; [done|]. split; [by intros [? ?]|]. intros _. split; [by exists true | lia].
Qed.

Lemma Qle_not_gt (a b : Q) : (a <= b)%Q -> ~ (b < a)%Q.
Proof. intros H1 H2. by apply (Qlt_not_le _ _ H2). Qed.

Lemma Qgt_not_le (a b : Q) : (b < a)%Q -> ~ (a <= b)%Q.
Proof. intros H1 H2. by apply (Qlt_not_le _ _ H1). Qed.

(** The status of a result whose latency [ms] measures the time [t]. *)
Lemma slow_or_on_time (fast : Status) (ms t : Q) :
  (ms == t)%Q ->
  ((t <= 1200)%Q /\ ~ (1200 < t)%Q /\ slow_or fast ms = fast) \/
  ((1200 < t)%Q /\ ~ (t <= 1200)%Q /\ slow_or fast ms = SLOW).
Proof.
  intros E. destruct (threshold_split fast ms t E) as (Hle & Hgt).
  destruct (Qlt_le_dec 1200 t) as [H | H].
  - right. split; [done|]. split; [by apply Qgt_not_le | by apply Hgt].
  - left. split; [done|]. split; [by apply Qle_not_gt | by apply Hle].
Qed.

(** X11: the status says how the probe went, and nothing else does: DOWN
    exactly when neither a readable ok status nor a resolved second request
    was obtained; SLOW exactly when one was, after more than 1200 ms;
    UP_OPAQUE exactly when the second request resolved opaque within
    1200 ms; UP in the remaining successful cases. *)
Theorem status_tells_outcome (w : World) (url : string) :
  exists r : ProbeResult,
    (probe w url).1 = Normal r /\
    (status r = DOWN <-> ~ successful w) /\
    (status r = SLOW <-> successful w /\ (1200 < total_time w)%Q) /\
    (status r = UP_OPAQUE <-> visibility_restricted w /\ (total_time w <= 1200)%Q) /\
    (status r = UP <->
       successful w /\ ~ visibility_restricted w /\ (total_time w <= 1200)%Q).
Proof.
  destruct (probe_outcome w url) as (r & Hr & Ho). exists r. split; [exact Hr|].
  clear Hr. unfold visibility_restricted.
  destruct Ho as [r1 H1 Hok|r1 H1 Hok|e r2 H1 H2 Hty|e r2 H1 H2 Hty|H1|e H1 H2|e H1 H2|e e2 H1 H2 Hne].
  - destruct (slow_or_on_time UP (elapsed1 w) (total_time w)) as [(L & NL & E) | (L & NL & E)];
      [world_facts; apply elapsed1_eq | |];
      world_facts; simpl; rewrite E; intuition (try discriminate; try congruence).
  - world_facts; simpl. intuition (try discriminate; try congruence).
  - destruct (slow_or_on_time UP_OPAQUE (elapsed2 w) (total_time w)) as [(L & NL & E) | (L & NL & E)];
      [world_facts; apply elapsed2_eq | |];
      world_facts; simpl; rewrite E; intuition (try discriminate; try congruence).
  - destruct (slow_or_on_time UP (elapsed2 w) (total_time w)) as [(L & NL & E) | (L & NL & E)];
      [world_facts; apply elapsed2_eq | |];
      world_facts; simpl; rewrite E; intuition (try discriminate; try congruence).
  - world_facts; simpl. intuition (try discriminate; try congruence).
  - world_facts; simpl. intuition (try discriminate; try congruence).
  - world_facts; simpl. intuition (try discriminate; try congruence).
  - world_facts; simpl. intuition (try discriminate; try congruence).
Qed.

(** * More about a cycle *)

Lemma set_all_checking_other (clock : nat -> Z) (targets : list Target.t) :
  forall (n : nat) (state : gmap string Entry.t) (u : string),
    u ∉ urls targets -> set_all_checking clock n targets state !! u = state !! u.
Proof.
  unfold urls. induction targets as [|a ts IH]; intros n state u Hu; [done|].
  simpl. rewrite fmap_cons in Hu. apply not_elem_of_cons in Hu as [Hne Hu].
  rewrite IH by exact Hu. by rewrite lookup_insert_ne.
Qed.

(** X12: [render] runs once when a cycle starts and once more each time a
    probe settles, so results appear one by one and not at the end: every
    further probe that settles adds one call. *)
Theorem render_once_per_result (targets : list Target.t) (concurrency : nat)
    (clock : nat -> Z) (state0 : gmap string Entry.t) (p : Pool.t) :
  reachable targets concurrency clock state0 p ->
  Pool.renders (runChecks_start targets concurrency clock state0) = 1 /\
  Pool.renders p = 1 + completions (Pool.trace p) /\
  (resolved p = true -> 1 <= concurrency -> Pool.renders p = 1 + length targets) /\
  (forall (schedule : list (nat * World * Z)) (q : Pool.t),
     run targets schedule p = Some q ->
     Pool.renders q = Pool.renders p + length schedule).
Proof.
  intros Hreach. pose proof (inv_reachable _ _ _ _ _ Hreach) as Hinv.
  destruct (start_fields targets concurrency clock state0) as (_ & Hr & _).
  split; [exact Hr|]. split; [apply (inv_renders _ _ _ Hinv)|]. split.
  - intros Hres Hc. rewrite (inv_renders _ _ _ Hinv).
    pose proof (resolved_cursor_end _ _ _ Hinv Hc Hres).
    pose proof (proj1 (resolved_iff_none_in_flight _ _ _ Hinv) Hres).
    pose proof (inv_count _ _ _ Hinv). lia.
  - intros schedule q Hrun.
    assert (Hq : reachable targets concurrency clock state0 q).
    { unfold reachable in *. eapply rtc_trans; [exact Hreach | by eapply run_rtc]. }
    rewrite (inv_renders _ _ _ (inv_reachable _ _ _ _ _ Hq)), (inv_renders _ _ _ Hinv).
    rewrite (run_completions _ _ _ _ Hrun). lia.
Qed.

(** Scenario E: one call at the start, six when the five probes have
    settled. *)
Lemma render_once_per_result_witness :
  reachable five_targets 2 noon ∅ start5 /\
  run five_targets schedule5 start5 = Some after5 /\
  Pool.renders start5 = 1 /\
  Pool.renders after5 = 6 /\
  Pool.renders after5 = 1 + completions (Pool.trace after5).
Proof.
  assert (Hreach : reachable five_targets 2 noon ∅ start5) by apply rtc_refl.
  assert (Hreach5 : reachable five_targets 2 noon ∅ after5).
  { apply (run_reachable five_targets 2 noon ∅ schedule5). exact after5_run. }
  destruct (render_once_per_result five_targets 2 noon ∅ start5 Hreach)
    as (H1 & _ & _ & Hmore).
  destruct (render_once_per_result five_targets 2 noon ∅ after5 Hreach5)
    as (_ & H5 & _ & _).
  pose proof (Hmore schedule5 after5 after5_run) as H6.
  split; [exact Hreach|]. split; [exact after5_run|]. split; [exact H1|].
  split; [|exact H5]. rewrite H6. reflexivity.
Defined.

(** X13: a cycle writes the entries of its targets' urls and nothing else:
    the keys of the store are those it had plus the urls of the targets, no
    key is ever removed, and the entry of any other url is left as it was. *)
Theorem cycle_store_footprint (targets : list Target.t) (concurrency : nat)
    (clock : nat -> Z) (state0 : gmap string Entry.t) (p : Pool.t) :
  reachable targets concurrency clock state0 p ->
  dom (Pool.state p) = dom state0 ∪ list_to_set (urls targets) /\
  forall u : string, u ∉ urls targets -> Pool.state p !! u = state0 !! u.
Proof.
  unfold reachable. revert p. apply rtc_ind_r.
  - destruct (start_fields targets concurrency clock state0) as (-> & _ & _).
    split; [apply set_all_checking_dom|]. intros u Hu. by apply set_all_checking_other.
  - intros q q' Hq (k & w & now & Hres) (IHd & IHo).
    pose proof (inv_reachable _ _ _ _ _ Hq) as Hinv.
    destruct (resume_cases targets k w now q q' Hres)
      as (idx & t & r & Hk & _ & _ & Hcase).
    destruct (inv_awaiting _ _ _ Hinv k idx t Hk) as (_ & Hidx).
    assert (Hin : Target.url t ∈ urls targets).
    { unfold urls. apply list_elem_of_fmap. exists t. split; [done|].
      by eapply list_elem_of_lookup_2. }
    assert (Hst : Pool.state q' = <[Target.url t := entry_of r now]> (Pool.state q)).
    { by destruct Hcase as [(_ & t' & _ & ->) | (_ & ->)]. }
    rewrite Hst. split.
    + rewrite dom_insert_L, IHd. set_solver.
    + intros u Hu. rewrite lookup_insert_ne; [by apply IHo|].
      intros Heq. apply Hu. by rewrite <- Heq.
Qed.

Lemma cycle_store_footprint_witness :
  reachable five_targets 2 noon ∅ after5 /\
  dom (Pool.state after5) = dom (∅ : gmap string Entry.t) ∪ list_to_set (urls five_targets) /\
  forall u : string, u ∉ urls five_targets ->
    Pool.state after5 !! u = (∅ : gmap string Entry.t) !! u.
Proof.
  assert (Hreach : reachable five_targets 2 noon ∅ after5).
  { apply (run_reachable five_targets 2 noon ∅ schedule5). exact after5_run. }
  split; [exact Hreach|].
  apply (cycle_store_footprint five_targets 2 noon ∅ after5 Hreach).
Defined.

Lemma stored_by_mono (targets : list Target.t) (tr tr' : list Event) (u : string)
    (e : Entry.t) :
  stored_by targets tr u e -> stored_by targets (tr ++ tr') u e.
Proof.
  intros (k & idx & r & now & t & Hin & Hrest). exists k, idx, r, now, t.
  split; [|exact Hrest]. apply elem_of_app. by left.
Qed.

(** X14: in a cycle run in isolation (no other cycle writes the state map
    while it runs), nothing that the map held before the cycle is shown for
    a target: its entry is the CHECKING entry written at the start, or the
    result of a probe that settled in this cycle for a target with that
    url; and when the cycle has resolved it is such a result. *)
Theorem no_stale_results (targets : list Target.t) (concurrency : nat)
    (clock : nat -> Z) (state0 : gmap string Entry.t) (p : Pool.t) (t : Target.t) :
  reachable targets concurrency clock state0 p -> t ∈ targets ->
  (exists e : Entry.t,
     Pool.state p !! Target.url t = Some e /\
     ((exists m : nat, e = checking_entry (clock m)) \/
      stored_by targets (Pool.trace p) (Target.url t) e)) /\
  (1 <= concurrency -> resolved p = true ->
   exists e : Entry.t,
     Pool.state p !! Target.url t = Some e /\ Entry.status e <> CHECKING /\
     stored_by targets (Pool.trace p) (Target.url t) e).
Proof.
  intros Hreach Ht.
  assert (Hmain : exists e : Entry.t,
     Pool.state p !! Target.url t = Some e /\
     ((exists m : nat, e = checking_entry (clock m)) \/
      stored_by targets (Pool.trace p) (Target.url t) e)).
  { revert p Hreach. unfold reachable. apply rtc_ind_r.
    - destruct (start_fields targets concurrency clock state0) as (-> & _ & _).
      destruct (set_all_checking_lookup clock targets 0 state0 (Target.url t)) as [m Hm].
      { left. by exists t. }
      exists (checking_entry (clock m)). split; [exact Hm|]. left. by exists m.
    - intros q q' Hq (k & w & now & Hres) (e & He & IH).
      pose proof (inv_reachable _ _ _ _ _ Hq) as Hinv.
      destruct (resume_cases targets k w now q q' Hres)
        as (idx & t0 & r & Hk & _ & _ & Hcase).
      destruct (inv_awaiting _ _ _ Hinv k idx t0 Hk) as (_ & Hidx).
      assert (Hq' : Pool.state q' = <[Target.url t0 := entry_of r now]> (Pool.state q) /\
                    exists tail, Pool.trace q' = (Pool.trace q ++ [Complete k idx r]) ++ tail).
      { destruct Hcase as [(_ & t' & _ & ->) | (_ & ->)]; simpl; (split; [done|]).
        - by eexists.
        - exists []. by rewrite app_nil_r. }
      destruct Hq' as (-> & tail & ->).
      destruct (decide (Target.url t0 = Target.url t)) as [Heq | Hne].
      + exists (entry_of r now). rewrite Heq. split; [apply lookup_insert_eq|]. right.
        apply stored_by_mono. exists k, idx, r, now, t0.
        split; [apply elem_of_app; right; apply list_elem_of_here | done].
      + exists e. rewrite lookup_insert_ne by exact Hne. split; [exact He|].
        destruct IH as [Hc | Hs]; [by left | right].
        rewrite <- app_assoc. by apply stored_by_mono. }
  split; [exact Hmain|]. intros Hconc Hres.
  pose proof (inv_reachable _ _ _ _ _ Hreach) as Hinv.
  destruct (resolved_all_settled _ _ _ Hinv Hconc Hres t Ht) as (e' & He' & Hne).
  destruct Hmain as (e & He & [(m & Hm) | Hs]); rewrite He in He'; injection He' as <-.
  - subst e. by destruct Hne.
  - exists e. by repeat split.
Qed.

(** Scenario E run to its end: target c shows the SLOW result of the probe
    that settled for it. *)
Lemma no_stale_results_witness :
  reachable five_targets 2 noon ∅ after5 /\
  Target.mk "c" "SERVER" "http://c:8006" ∈ five_targets /\
  resolved after5 = true /\
  Entry.status <$> Pool.state after5 !! "http://c:8006" = Some SLOW /\
  exists e : Entry.t,
    Pool.state after5 !! "http://c:8006" = Some e /\ Entry.status e <> CHECKING /\
    stored_by five_targets (Pool.trace after5) "http://c:8006" e.
Proof.
  assert (Hreach : reachable five_targets 2 noon ∅ after5).
  { apply (run_reachable five_targets 2 noon ∅ schedule5). exact after5_run. }
  assert (Hin : Target.mk "c" "SERVER" "http://c:8006" ∈ five_targets).
  { do 2 apply list_elem_of_further. apply list_elem_of_here. }
  destruct (no_stale_results five_targets 2 noon ∅ after5
              (Target.mk "c" "SERVER" "http://c:8006") Hreach Hin) as (_ & Hend).
  split; [exact Hreach|]. split; [exact Hin|]. split; [reflexivity|].
  split; [by vm_compute|]. apply Hend; [lia | reflexivity].
Defined.

(** * The summary during a cycle *)

Lemma count_status_all (ss : list (option Status)) (targets : list Target.t)
    (state : gmap string Entry.t) :
  (forall t, t ∈ targets -> stored_status state t ∈ ss) ->
  count_status ss targets state = length targets.
Proof.
  induction targets as [|t ts IH]; intros H; [reflexivity|].
  rewrite count_status_cons, count_status_one, IH.
  - rewrite bool_decide_eq_true_2; [reflexivity|]. apply H, list_elem_of_here.
  - intros t' Ht'. by apply H, list_elem_of_further.
Qed.

Lemma count_status_none (ss : list (option Status)) (targets : list Target.t)
    (state : gmap string Entry.t) :
  (forall t, t ∈ targets -> stored_status state t ∉ ss) ->
  count_status ss targets state = 0.
Proof.
  induction targets as [|t ts IH]; intros H; [reflexivity|].
  rewrite count_status_cons, count_status_one, IH.
  - rewrite bool_decide_eq_false_2; [reflexivity|]. apply H, list_elem_of_here.
  - intros t' Ht'. by apply H, list_elem_of_further.
Qed.

Lemma count_status_same (ss1 ss2 : list (option Status)) (targets : list Target.t)
    (state : gmap string Entry.t) :
  (forall t, t ∈ targets -> (stored_status state t ∈ ss1 <-> stored_status state t ∈ ss2)) ->
  count_status ss1 targets state = count_status ss2 targets state.
Proof.
  induction targets as [|t ts IH]; intros H; [reflexivity|].
  rewrite !(count_status_cons _ t ts), !count_status_one, IH.
  - pose proof (H t (list_elem_of_here _ _)) as Ht.
    repeat case_bool_decide; tauto.
  - intros t' Ht'. by apply H, list_elem_of_further.
Qed.

(** X15: when a cycle starts, whatever was shown before, the summary reads
    0 up, 0 down and every target checking. *)
Theorem summary_at_start (targets : list Target.t) (concurrency : nat)
    (clock : nat -> Z) (state0 : gmap string Entry.t) :
  summary targets (Pool.state (runChecks_start targets concurrency clock state0))
  = (0, 0, length targets).
Proof.
  destruct (start_fields targets concurrency clock state0) as (-> & _ & _).
  unfold summary. rewrite summary_from. simpl.
  assert (Hc : forall t, t ∈ targets ->
            stored_status (set_all_checking clock 0 targets state0) t = Some CHECKING).
  { intros t Ht. unfold stored_status.
    destruct (set_all_checking_lookup clock targets 0 state0 (Target.url t)) as [m ->];
      [left; by exists t | reflexivity]. }
  rewrite (count_status_all [None; Some CHECKING; Some SLOW]).
  - rewrite !count_status_none; [reflexivity | |];
      intros t Ht; rewrite (Hc t Ht); set_solver.
  - intros t Ht. rewrite (Hc t Ht). set_solver.
Qed.

(** X16: when a cycle run in isolation (no other cycle writes the state map
    while it runs) has resolved, the targets counted as "checking" are
    exactly the SLOW ones; with no SLOW target the summary reads 0
    checking. *)
Theorem summary_when_resolved (targets : list Target.t) (concurrency : nat)
    (clock : nat -> Z) (state0 : gmap string Entry.t) (p : Pool.t) :
  1 <= concurrency -> reachable targets concurrency clock state0 p ->
  resolved p = true ->
  summary targets (Pool.state p) =
    (count_status [Some UP; Some UP_OPAQUE] targets (Pool.state p),
     count_status [Some DOWN] targets (Pool.state p),
     count_status [Some SLOW] targets (Pool.state p)).
Proof.
  intros Hc Hreach Hres. pose proof (inv_reachable _ _ _ _ _ Hreach) as Hinv.
  unfold summary. rewrite summary_from. simpl. f_equal.
  apply count_status_same. intros t Ht.
  destruct (resolved_all_settled _ _ _ Hinv Hc Hres t Ht) as (e & He & Hne).
  unfold stored_status. rewrite He. simpl.
  destruct (Entry.status e); try (by destruct Hne); set_solver.
Qed.

Lemma summary_when_resolved_witness :
  1 <= 2 /\ reachable five_targets 2 noon ∅ after5 /\ resolved after5 = true /\
  summary five_targets (Pool.state after5) =
    (count_status [Some UP; Some UP_OPAQUE] five_targets (Pool.state after5),
     count_status [Some DOWN] five_targets (Pool.state after5),
     count_status [Some SLOW] five_targets (Pool.state after5)).
Proof.
  assert (Hreach : reachable five_targets 2 noon ∅ after5).
  { apply (run_reachable five_targets 2 noon ∅ schedule5). exact after5_run. }
  split; [lia|]. split; [exact Hreach|]. split; [reflexivity|].
  apply (summary_when_resolved five_targets 2 noon ∅ after5); [lia | exact Hreach | reflexivity].
Defined.

(** Why isolation: when a second cycle starts before the first has
    resolved, the first resolves while the map holds the second's CHECKING
    entries, and its last result is shown although no probe of the second
    has settled. *)
Example overlapping_cycles :
  resolved first_cycle_5 = true /\
  summary five_targets (Pool.state first_cycle_5) = (1, 0, 4) /\
  count_status [Some SLOW] five_targets (Pool.state first_cycle_5) = 0 /\
  completions (Pool.trace second_cycle_0) = 0 /\
  Entry.status <$> Pool.state first_cycle_5 !! "http://d:8006" = Some UP.
Proof. by vm_compute. Qed.

(** * Degenerate cycles *)

(** X17: with no targets a cycle resolves at once: every worker leaves its
    loop without taking anything, no probe is started, the store is left
    untouched, and [render] runs once. *)
Theorem empty_target_list (concurrency : nat) (clock : nat -> Z)
    (state0 : gmap string Entry.t) :
  runChecks_start [] concurrency clock state0
  = Pool.mk 0 (replicate concurrency Finished) state0 1 [] /\
  resolved (runChecks_start [] concurrency clock state0) = true /\
  forall k w now, resume [] k w now (runChecks_start [] concurrency clock state0) = None.
Proof.
  assert (Hs : runChecks_start [] concurrency clock state0
               = Pool.mk 0 (replicate concurrency Finished) state0 1 []).
  { induction concurrency as [|c IH]; [reflexivity|].
    change (runChecks_start [] (S c) clock state0)
      with (spawn [] (runChecks_start [] c clock state0)).
    rewrite IH, replicate_S_end. reflexivity. }
  rewrite Hs. split; [reflexivity|]. split.
  - unfold resolved. simpl. clear Hs.
    induction concurrency as [|c IH]; [reflexivity | exact IH].
  - intros k w now. unfold resume. simpl.
    destruct (replicate concurrency Finished !! k) as [wk|] eqn:Hk; [|reflexivity].
    apply lookup_replicate in Hk as [-> _]. reflexivity.
Qed.

(** X18: with a concurrency of 0 no worker is started: the cycle resolves
    at once, no probe can ever settle, and every target stays CHECKING. *)
Theorem zero_concurrency (targets : list Target.t) (clock : nat -> Z)
    (state0 : gmap string Entry.t) (p : Pool.t) :
  reachable targets 0 clock state0 p ->
  p = runChecks_start targets 0 clock state0 /\
  resolved p = true /\ Pool.trace p = [] /\
  forall t, t ∈ targets ->
    exists m : nat, Pool.state p !! Target.url t = Some (checking_entry (clock m)).
Proof.
  intros Hreach.
  assert (Hp : p = runChecks_start targets 0 clock state0).
  { revert p Hreach. unfold reachable. apply rtc_ind_r; [reflexivity|].
    intros q q' _ (k & w & now & Hres) ->. exfalso.
    unfold resume, runChecks_start in Hres. simpl in Hres. discriminate. }
  subst p. split; [reflexivity|]. split; [reflexivity|]. split; [reflexivity|].
  intros t Ht. unfold runChecks_start. simpl.
  apply set_all_checking_lookup. left. by exists t.
Qed.

Lemma zero_concurrency_witness :
  reachable five_targets 0 noon ∅ (runChecks_start five_targets 0 noon ∅) /\
  resolved (runChecks_start five_targets 0 noon ∅) = true /\
  Pool.trace (runChecks_start five_targets 0 noon ∅) = [] /\
  forall t, t ∈ five_targets ->
    exists m : nat,
      Pool.state (runChecks_start five_targets 0 noon ∅) !! Target.url t
      = Some (checking_entry (noon m)).
Proof.
  assert (Hreach : reachable five_targets 0 noon ∅ (runChecks_start five_targets 0 noon ∅))
    by apply rtc_refl.
  split; [exact Hreach|].
  apply (zero_concurrency five_targets noon ∅ _ Hreach).
Defined.

(** * The refresh button and the timer *)

Lemma sched_events (d : Z) (evs : list PageEvent) :
  forall s : Sched.t,
    Sched.interval s = Some d ->
    Sched.interval (foldl handle s evs) = Some d /\
    Sched.samples (foldl handle s evs) = Sched.samples s /\
    Sched.cycles (foldl handle s evs) = Sched.cycles s + length evs /\
    Sched.delays (foldl handle s evs)
    = Sched.delays s ++ replicate (length (filter is_timer evs)) d.
Proof.
  induction evs as [|ev evs IH]; intros s Hs.
  - simpl. rewrite app_nil_r. repeat split; try lia; done.
  - change (foldl handle s (ev :: evs)) with (foldl handle (handle s ev) evs).
    destruct ev; simpl handle.
    + unfold fire. rewrite Hs, filter_cons_True by done.
      destruct (IH (Sched.mk (Sched.samples s) (Some d) (S (Sched.cycles s))
                      (Sched.delays s ++ [d])) eq_refl) as (-> & -> & -> & ->).
      simpl. rewrite <- app_assoc. repeat split; try lia; done.
    + rewrite filter_cons_False by (by intros []).
      destruct (IH (click s) Hs) as (-> & -> & -> & ->).
      simpl. repeat split; try lia; done.
Qed.

(** X19: every timer firing and every click of the refresh button starts
    exactly one cycle, on top of the one at startup. Clicks draw no random
    number and do not move the timer: the waits between periodic firings are
    all the one delay fixed at startup, however the clicks fall among
    them. *)
Theorem clicks_leave_timer_alone (rand : nat -> Q) (evs : list PageEvent) :
  Sched.cycles (after_events rand evs) = 1 + length evs /\
  Sched.samples (after_events rand evs) = 1 /\
  Sched.interval (after_events rand evs)
  = Some (REFRESH_EVERY_MS + jitter (rand 0%nat))%Z /\
  Sched.delays (after_events rand evs)
  = replicate (length (filter is_timer evs)) (REFRESH_EVERY_MS + jitter (rand 0%nat))%Z.
Proof.
  unfold after_events.
  destruct (sched_events (REFRESH_EVERY_MS + jitter (rand 0%nat))%Z evs (main rand) eq_refl)
    as (Hi & Hs & Hc & Hd).
  rewrite Hi, Hs, Hc, Hd. done.
Qed.

Example click_between_firings :
  Sched.delays (after_events rand_half_then_zero [TimerFires; ButtonClicked; TimerFires])
  = [120750; 120750]%Z /\
  Sched.cycles (after_events rand_half_then_zero [TimerFires; ButtonClicked; TimerFires]) = 4.
Proof. by vm_compute. Qed.
